(** * ts-unused-exports: the per-file parser ([src/parser.ts])

    A shallow embedding of [parser.ts]: the filename normaliser
    ([extractFilename]), the opt-out comment check
    ([isNodeDisabledViaComment]), the per-file mapper ([mapFile]) and the
    project parser ([parseFile], [parsePaths]), followed by the properties
    of the specification that concern them.

    Conventions of the embedding.
    - JavaScript strings are [string]; [indexOf], [substring], [substr],
      [String.prototype.replace] with a regular expression and
      [String.prototype.match] are written out below.
    - [undefined] is [None]; truthiness of a value used in a condition is
      written out ([truthy_string], [truthy_obool]).
    - The JavaScript object [imports] is a [gmap string (list string)];
      arrays are lists.
    - An exception is the [Thrown] constructor of [Outcome]. *)

From Stdlib Require Import ZArith Ascii Bool Lia.
From Stdlib Require String.
From stdpp Require Import base option list strings gmap fin_maps.

Local Open Scope Z_scope.

(* ===================================================================== *)
(** * JavaScript string primitives *)
(* ===================================================================== *)

Module JsString.

(** Truthiness of a string: only the empty string is falsy. *)
Definition truthy_string (s : string) : bool :=
  match s with
  | EmptyString => false
  | String _ _ => true
  end.

(** Truthiness of a [boolean | undefined]. *)
Definition truthy_obool (b : option bool) : bool :=
  match b with
  | Some true => true
  | _ => false
  end.

(** [s.startsWith(needle)], the test [indexOf] makes at each position. *)
Fixpoint starts_with (needle s : string) : bool :=
  match needle, s with
  | EmptyString, _ => true
  | String a needle', String b s' => Ascii.eqb a b && starts_with needle' s'
  | String _ _, EmptyString => false
  end.

(** [s.indexOf(needle)] counted from position [i]: the first position at
    which [needle] occurs, [-1] when there is none. *)
Fixpoint indexOf_from (needle s : string) (i : Z) : Z :=
  if starts_with needle s then i
  else match s with
       | EmptyString => -1
       | String _ s' => indexOf_from needle s' (i + 1)
       end.

Definition indexOf (s needle : string) : Z := indexOf_from needle s 0.

(** [s.length]. *)
Definition jslength (s : string) : Z := Z.of_nat (String.length s).

(** Clamp an index into [0 .. s.length], as [substring] and [substr] do. *)
Definition clamp (s : string) (i : Z) : nat :=
  Z.to_nat (Z.min (Z.max i 0) (jslength s)).

(** [s.substring(a, b)]: both ends are clamped and swapped when [a > b]. *)
Definition substring (s : string) (a b : Z) : string :=
  let a' := clamp s a in
  let b' := clamp s b in
  String.substring (Nat.min a' b') (Nat.max a' b' - Nat.min a' b') s.

(** [s.substr(start, len)] for a non-negative [start]; a non-positive
    [len] gives the empty string. *)
Definition substr (s : string) (start len : Z) : string :=
  String.substring (clamp s start) (Z.to_nat len) s.

(** [s] contains [needle] as a substring. *)
Definition contains (s needle : string) : Prop :=
  exists pre post : string, s = pre +:+ needle +:+ post.

End JsString.

(* ===================================================================== *)
(** * Regular expressions, as much as [parser.ts] uses

    A backtracking matcher with the priorities of the JavaScript engine:
    [?] and [*] are greedy, alternatives are tried in order, and a match is
    searched at the leftmost position first. *)
(* ===================================================================== *)

Module Regex.

(** One-character matchers. *)
Inductive atom : Type :=
| AChar (c : ascii)                     (* a literal character, e.g. [\.] *)
| AClass (negated : bool) (cs : list ascii).   (* [[...]] and [[^...]] *)

Inductive regex : Type :=
| RAtom (a : atom)
| RSeq (r1 r2 : regex)
| ROpt (r : regex)                      (* [r?], greedy *)
| RStar (a : atom)                      (* [a*], greedy, on one-character matchers *)
| REps                                  (* the empty expression *)
| REnd.                                 (* [$] without the [m] flag *)

Definition mem_ascii (c : ascii) (cs : list ascii) : bool :=
  existsb (Ascii.eqb c) cs.

Definition atom_matches (a : atom) (c : ascii) : bool :=
  match a with
  | AChar d => Ascii.eqb c d
  | AClass negated cs => xorb negated (mem_ascii c cs)
  end.

(** Greedy [a*]: take one more character first, fall back to the
    continuation. *)
Fixpoint star_atom (a : atom) (s : string)
    (k : string -> option string) : option string :=
  match s with
  | String c s' =>
      if atom_matches a c then
        match star_atom a s' k with
        | Some rest => Some rest
        | None => k s
        end
      else k s
  | EmptyString => k s
  end.

(** [rmatch r s k]: match [r] at the start of [s], then run the
    continuation [k] on what is left; [Some rest] is the input left after
    the whole match. *)
Fixpoint rmatch (r : regex) (s : string)
    (k : string -> option string) : option string :=
  match r with
  | RAtom a =>
      match s with
      | String c s' => if atom_matches a c then k s' else None
      | EmptyString => None
      end
  | RSeq r1 r2 => rmatch r1 s (fun s1 => rmatch r2 s1 k)
  | ROpt r1 =>
      match rmatch r1 s k with
      | Some rest => Some rest
      | None => k s
      end
  | RStar a => star_atom a s k
  | REps => k s
  | REnd =>
      match s with
      | EmptyString => k s
      | String _ _ => None
      end
  end.

(** A match anchored at the start of [s]. *)
Definition match_here (r : regex) (s : string) : option string :=
  rmatch r s Some.

(** [s.replace(r, repl)] for a regular expression without the [g] flag and
    a replacement text without [$] patterns: the leftmost match is replaced,
    a string without a match is returned as it is. *)
Fixpoint replace (r : regex) (repl s : string) : string :=
  match match_here r s with
  | Some rest => repl +:+ rest
  | None =>
      match s with
      | String c s' => String c (replace r repl s')
      | EmptyString => EmptyString
      end
  end.

(** [!!s.match(r)]: is there a match at some position. *)
Fixpoint test (r : regex) (s : string) : bool :=
  match match_here r s with
  | Some _ => true
  | None =>
      match s with
      | String _ s' => test r s'
      | EmptyString => false
      end
  end.

(** A literal word, character by character. *)
Fixpoint literal (w : string) : regex :=
  match w with
  | EmptyString => REps
  | String c w' => RSeq (RAtom (AChar c)) (literal w')
  end.

End Regex.

(* ===================================================================== *)
(** * The TypeScript syntax tree, as far as [parser.ts] looks at it *)
(* ===================================================================== *)

Module Ts.

(** [ts.SyntaxKind]: the kinds [parser.ts] names, and all the others. *)
Inductive SyntaxKind : Type :=
| ImportDeclaration
| ExportAssignment
| ExportDeclaration
| ExportKeyword
| DefaultKeyword
| EndOfFileToken
| OtherKind (code : N).

#[export] Instance SyntaxKind_eq_dec : EqDecision SyntaxKind.
Proof. solve_decision. Defined.

(** [ts.CommentRange]. *)
Record CommentRange : Type := { cr_pos : Z; cr_end : Z }.

Record Modifier : Type := { mod_kind : SyntaxKind }.

(** The module specifier expression of an export declaration. *)
Record Expression : Type := { expr_text : string }.

(** [ts.Node]: the properties read by [parser.ts]. *)
Record Node : Type := {
  kind : SyntaxKind;
  fullStart : Z;                        (* getFullStart() *)
  nodeStart : Z;                        (* getStart() *)
  nodeEnd : Z;                          (* getEnd() *)
  modifiers : option (list Modifier);
  name : option string;                 (* name.text, when there is a name *)
  moduleSpecifier : option Expression;
  nodeText : string                     (* getText() *)
}.

(** [ts.SourceFile]: its text and the children [ts.forEachChild] visits,
    in order (the top-level statements, then the end-of-file token). *)
Record SourceFile : Type := {
  fullText : string;
  children : list Node
}.

End Ts.

(* ===================================================================== *)
(** * Shared types ([types.ts], [parser.common.ts]) *)
(* ===================================================================== *)

Module Types.

(** The [what] of a [FromWhat]: either the shared array [star] of
    [parser.common] (compared by identity in [mapFile]) or an array of
    names. *)
Inductive What : Type :=
| Star
| Names (ns : list string).

Record FromWhat : Type := { specifier : string; what : What }.

(** Modelled from the spec: LocationInFile of [types.ts], not under src/:
    a name and a source span. *)
Record LocationInFile : Type := {
  loc_name : string;
  loc_span : Z * Z
}.

Record File : Type := {
  path : string;
  fullPath : string;
  imports : gmap string (list string);
  exports : list string;
  exportLocations : list LocationInFile
}.

Record TsConfig : Type := {
  baseUrl : option string;
  files : list string;
  paths : option (gmap string (list string))
}.

Record ExtraCommandLineOptions : Type := {
  excludeDeclarationFiles : option bool
}.

(** What a call may throw. *)
Inductive Exn : Type :=
| FileReadError (p : string)
| ParseError (p : string).

(** The outcome of a call that may throw. *)
Inductive Outcome (A : Type) : Type :=
| Returned (a : A)
| Thrown (e : Exn).
Arguments Returned {A} a.
Arguments Thrown {A} e.

Definition bind {A B : Type} (o : Outcome A) (f : A -> Outcome B) : Outcome B :=
  match o with
  | Returned a => f a
  | Thrown e => Thrown e
  end.

(** [xs.map(f)] where [f] may throw: the elements are visited in order and
    the first exception leaves the loop. *)
Fixpoint map_throwing {A B : Type} (f : A -> Outcome B) (xs : list A)
    : Outcome (list B) :=
  match xs with
  | [] => Returned []
  | x :: xs' =>
      bind (f x) (fun y =>
      bind (map_throwing f xs') (fun ys =>
      Returned (y :: ys)))
  end.

End Types.

(* ===================================================================== *)
(** * The collaborators of [parser.ts]

    Node's [path] and [fs] modules, the TypeScript compiler, the
    [tsconfig-paths] package, and the sibling modules [parser.common],
    [parser.import], [parser.export] and [parser.dynamic]. *)
(* ===================================================================== *)

Module Host.
Import Ts Types.

(** [tsconfigPaths.MatchPath]: from a requested module to a matched path. *)
Definition MatchPath : Type := string -> option string.

Class Collaborators : Type := {
  (* path *)
  relative : string -> string -> string;
  resolve : string -> string -> string;
  (* fs and typescript *)
  readFileSync : string -> Outcome string;
  createSourceFile : string -> string -> Outcome SourceFile;
  (* [ts.getLeadingCommentRanges]; the empty list stands for [undefined],
     which the compiler returns rather than an empty array *)
  getLeadingCommentRanges : string -> Z -> list CommentRange;
  (* tsconfig-paths *)
  createMatchPath : string -> gmap string (list string) -> MatchPath;
  (* parser.common: the contents of the shared array [star] *)
  star : list string;
  (* parser.import *)
  extractImport : Node -> FromWhat;
  (* the module key [addImportCore] finds for a specifier, from
     [rootDir], [path], the matcher, [baseDir] and [baseUrl] *)
  moduleKey : string -> string -> option MatchPath -> option string ->
              option string -> string -> option string;
  (* parser.export *)
  extractExportStatement : Node -> list string;
  extractExportFromImport : Node -> Expression -> FromWhat;
  extractExport : string -> Node -> string;
  (* parser.dynamic *)
  mayContainDynamicImports : Node -> bool;
  dynamicImportsOf : Node -> list FromWhat
}.

End Host.

(* ===================================================================== *)
(** * FilenameNormalizer: [extractFilename] *)
(* ===================================================================== *)

Module Filename.
Import JsString Regex Host.

Definition backslash : ascii := ascii_of_nat 92.
Definition slash : ascii := "/"%char.
Definition dot : ascii := "."%char.

(** The regular expression [/([\\/]index)?\.[^.]*$/]. *)
Definition index_ext_re : regex :=
  RSeq (ROpt (RSeq (RAtom (AClass false [backslash; slash])) (literal "index")))
       (RSeq (RAtom (AChar dot))
             (RSeq (RStar (AClass true [dot])) REnd)).

(** The regular expression [/\.d$/]. *)
Definition dot_d_re : regex :=
  RSeq (RAtom (AChar dot)) (RSeq (RAtom (AChar "d"%char)) REnd).

Definition extractFilename `{Collaborators} (rootDir path : string) : string :=
  let name := replace index_ext_re "" (relative rootDir path) in
  (* Imports always have the '.d' part dropped from the filename, so for
     the export counting to work with d.ts files the '.d' part is dropped
     here too. *)
  if test dot_d_re name
  then substr name 0 (jslength name - 2)
  else name.

End Filename.

(* ===================================================================== *)
(** * CommentSuppressionChecker: [isNodeDisabledViaComment] *)
(* ===================================================================== *)

Module Comment.
Import JsString Ts Host.

Definition directive : string := "// ts-unused-exports:disable-next-line".

Definition isNodeDisabledViaComment `{Collaborators}
    (node : Node) (file : SourceFile) : bool :=
  let comments := getLeadingCommentRanges (fullText file) (fullStart node) in
  match last comments with
  | Some commentRange =>
      let commentText :=
        substring (fullText file) (cr_pos commentRange) (cr_end commentRange) in
      if String.eqb commentText directive then true else false
  | None => false
  end.

End Comment.

(* ===================================================================== *)
(** * FileMapper: [mapFile] *)
(* ===================================================================== *)

Module Mapper.
Import JsString Ts Types Host Filename Comment.

(** [hasModifier]: [undefined] when the node has no modifier array. *)
Definition hasModifier (node : Node) (modifier : SyntaxKind) : option bool :=
  match modifiers node with
  | None => None
  | Some ms =>
      Some (0 <? Z.of_nat (length
              (List.filter (fun m => bool_decide (mod_kind m = modifier)) ms)))
  end.

(** The three accumulators of [mapFile]. *)
Record Acc : Type := {
  acc_imports : gmap string (list string);
  acc_exports : list string;
  acc_exportLocations : list LocationInFile
}.

Definition empty_acc : Acc :=
  {| acc_imports := ∅; acc_exports := []; acc_exportLocations := [] |}.

(** The names a [what] holds. *)
Definition what_names `{Collaborators} (w : What) : list string :=
  match w with
  | Star => star
  | Names ns => ns
  end.

(** Modelled from the spec: addImportCore of [parser.import], not under
    src/: the specifier is resolved to a module key and the descriptor is
    registered in [imports] under that key, merged with the entry the key
    already has; the key is returned, [undefined] when there is none. *)
Definition addImportCore `{Collaborators} (fw : FromWhat)
    (rootDir path : string) (imports : gmap string (list string))
    (tsconfigPathsMatcher : option MatchPath)
    (baseDir baseUrl : option string)
    : option string * gmap string (list string) :=
  match moduleKey rootDir path tsconfigPathsMatcher baseDir baseUrl
                  (specifier fw) with
  | Some key =>
      (Some key,
       <[key := default [] (imports !! key) ++ what_names (what fw)]> imports)
  | None => (None, imports)
  end.

(** Modelled from the spec: addExportCore of [parser.export], not under
    src/: the name is appended to [exports] and one location entry for the
    node is appended to [exportLocations]. *)
Definition addExportCore (exportName : string) (file : SourceFile)
    (node : Node) (exportLocations : list LocationInFile)
    (exports : list string) : list LocationInFile * list string :=
  (exportLocations ++
     [{| loc_name := exportName; loc_span := (nodeStart node, nodeEnd node) |}],
   exports ++ [exportName]).

Section MapFile.
Context `{Collaborators}.
Variables (rootDir path : string) (file : SourceFile).
Variables (baseUrl : option string) (paths : option (gmap string (list string))).

(** [baseUrl && resolve(rootDir, baseUrl)] *)
Definition baseDir : option string :=
  match baseUrl with
  | None => None
  | Some b => if truthy_string b then Some (resolve rootDir b) else Some b
  end.

(** [(!!baseDir && !!paths && createMatchPath(baseDir, paths)) || undefined] *)
Definition tsconfigPathsMatcher : option MatchPath :=
  match baseDir, paths with
  | Some bd, Some ps =>
      if truthy_string bd then Some (createMatchPath bd ps) else None
  | _, _ => None
  end.

Definition addImport (fw : FromWhat) (a : Acc) : option string * Acc :=
  let '(key, imports') :=
    addImportCore fw rootDir path (acc_imports a)
                  tsconfigPathsMatcher baseDir baseUrl in
  (key, {| acc_imports := imports';
           acc_exports := acc_exports a;
           acc_exportLocations := acc_exportLocations a |}).

Definition addExport (exportName : string) (node : Node) (a : Acc) : Acc :=
  let '(locations', exports') :=
    addExportCore exportName file node (acc_exportLocations a) (acc_exports a) in
  {| acc_imports := acc_imports a;
     acc_exports := exports';
     acc_exportLocations := locations' |}.

(** Modelled from the spec: addDynamicImports of [parser.dynamic], not
    under src/: every dynamic import found in the node is registered
    through [addImport], in order. *)
Definition addDynamicImports (node : Node)
    (addImport : FromWhat -> Acc -> option string * Acc) (a : Acc) : Acc :=
  fold_left (fun a' fw => snd (addImport fw a')) (dynamicImportsOf node) a.

(** The statements of the callback after the kind tests: the scan for
    dynamic imports, then the export modifier. *)
Definition visitOther (node : Node) (a : Acc) : Acc :=
  let a1 :=
    if mayContainDynamicImports node
    then addDynamicImports node addImport a
    else a in
  if truthy_obool (hasModifier node ExportKeyword) then
    if truthy_obool (hasModifier node DefaultKeyword) then
      addExport "default" node a1
    else
      let name :=
        match name node with
        | Some text => text
        | None => extractExport path node
        end in
      if truthy_string name then addExport name node a1 else a1
  else a1.

(** The callback of [ts.forEachChild], after the comment check. *)
Definition dispatch (node : Node) (a : Acc) : Acc :=
  match kind node with
  | ImportDeclaration => snd (addImport (extractImport node) a)
  | ExportAssignment => addExport "default" node a
  | ExportDeclaration =>
      match moduleSpecifier node with
      | None =>
          fold_left (fun a' e => addExport e node a')
                    (extractExportStatement node) a
      | Some moduleSpecifier =>
          let fw := extractExportFromImport node moduleSpecifier in
          let '(key, a1) := addImport fw a in
          match key with
          | Some k =>
              if truthy_string k then
                match what fw with
                | Star => addExport ("*:" +:+ k) node a1
                | Names ns =>
                    {| acc_imports := acc_imports a1;
                       acc_exports := acc_exports a1 ++ ns;
                       acc_exportLocations := acc_exportLocations a1 |}
                end
              else a1
          | None => a1
          end
      end
  | _ => visitOther node a
  end.

(** The callback of [ts.forEachChild]. *)
Definition visitNode (node : Node) (a : Acc) : Acc :=
  if isNodeDisabledViaComment node file then a else dispatch node a.

Definition mapFile : File :=
  let name := extractFilename rootDir path in
  let a := fold_left (fun a node => visitNode node a) (children file) empty_acc in
  {| Types.path := name;
     fullPath := path;
     imports := acc_imports a;
     exports := acc_exports a;
     exportLocations := acc_exportLocations a |}.

End MapFile.

End Mapper.

(* ===================================================================== *)
(** * ProjectParser: [parseFile], [parsePaths] *)
(* ===================================================================== *)

Module Project.
Import JsString Ts Types Host Mapper.

Section ParsePaths.
Context `{Collaborators}.

Definition parseFile (rootDir path : string) (baseUrl : option string)
    (paths : option (gmap string (list string))) : Outcome File :=
  bind (readFileSync path) (fun text =>
  bind (createSourceFile path text) (fun sourceFile =>
  Returned (mapFile rootDir path sourceFile baseUrl paths))).

End ParsePaths.

(** [extraOptions && !extraOptions.excludeDeclarationFiles] *)
Definition includeDeclarationFiles
    (extraOptions : option ExtraCommandLineOptions) : option bool :=
  match extraOptions with
  | None => None
  | Some o => Some (negb (truthy_obool (excludeDeclarationFiles o)))
  end.

(** The callback of [filter]:
    [p => includeDeclarationFiles || p.indexOf('.d.') === -1] *)
Definition keepPath (extraOptions : option ExtraCommandLineOptions)
    (p : string) : bool :=
  truthy_obool (includeDeclarationFiles extraOptions)
  || (indexOf p ".d." =? -1).

(** The paths that pass the filter of [parsePaths]. *)
Definition filteredPaths (filePaths : list string)
    (extraOptions : option ExtraCommandLineOptions) : list string :=
  List.filter (keepPath extraOptions) filePaths.

Definition parsePaths `{Collaborators} (rootDir : string) (tsConfig : TsConfig)
    (extraOptions : option ExtraCommandLineOptions) : Outcome (list File) :=
  let files :=
    map_throwing
      (fun path => parseFile rootDir (resolve rootDir path)
                             (baseUrl tsConfig) (paths tsConfig))
      (filteredPaths (files tsConfig) extraOptions) in
  files.

End Project.

(* ===================================================================== *)
(** * The branches of the callback, as the specification names them *)
(* ===================================================================== *)

Module Branches.
Import JsString Ts Types Host Mapper.

(** (a) plain import, (b) export assignment, (c) export declaration
    without a module specifier, (d) export declaration with one, (e) the
    scan for dynamic imports, (f) the export modifier. *)
Inductive Branch : Type :=
| PlainImport
| ExportByAssignment
| ExportWithoutSpecifier
| ExportWithSpecifier
| DynamicImportScan
| ExportModifier.

#[export] Instance Branch_eq_dec : EqDecision Branch.
Proof. solve_decision. Defined.

(** How many exports have no location entry. *)
Definition unlocated (a : Acc) : Z :=
  Z.of_nat (length (acc_exports a)) - Z.of_nat (length (acc_exportLocations a)).

(** One of the four branches that end with [return]. *)
Definition is_kind_branch (b : Branch) : bool :=
  match b with
  | PlainImport | ExportByAssignment
  | ExportWithoutSpecifier | ExportWithSpecifier => true
  | DynamicImportScan | ExportModifier => false
  end.

Section Fired.
Context `{Collaborators}.
Variables (rootDir path : string) (file : SourceFile).
Variables (baseUrl : option string) (paths : option (gmap string (list string))).

(** The branches whose condition holds for a node that reached the
    dispatch, in the order of the source. *)
Definition fired (node : Node) : list Branch :=
  match kind node with
  | ImportDeclaration => [PlainImport]
  | ExportAssignment => [ExportByAssignment]
  | ExportDeclaration =>
      match moduleSpecifier node with
      | None => [ExportWithoutSpecifier]
      | Some _ => [ExportWithSpecifier]
      end
  | _ =>
      (if mayContainDynamicImports node then [DynamicImportScan] else [])
      ++ (if truthy_obool (hasModifier node ExportKeyword)
          then [ExportModifier] else [])
  end.

(** The body of the export-modifier branch. *)
Definition exportModifierBody (node : Node) (a : Acc) : Acc :=
  if truthy_obool (hasModifier node DefaultKeyword) then
    addExport file "default" node a
  else
    let name :=
      match name node with
      | Some text => text
      | None => extractExport path node
      end in
    if truthy_string name then addExport file name node a else a.

(** The body of the branch for an export declaration with a module
    specifier. *)
Definition exportFromBody (node : Node) (a : Acc) : Acc :=
  match moduleSpecifier node with
  | None => a
  | Some moduleSpecifier =>
      let fw := extractExportFromImport node moduleSpecifier in
      let '(key, a1) := addImport rootDir path baseUrl paths fw a in
      match key with
      | Some k =>
          if truthy_string k then
            match what fw with
            | Star => addExport file ("*:" +:+ k) node a1
            | Names ns =>
                {| acc_imports := acc_imports a1;
                   acc_exports := acc_exports a1 ++ ns;
                   acc_exportLocations := acc_exportLocations a1 |}
            end
          else a1
      | None => a1
      end
  end.

(** What one branch does to the accumulators. *)
Definition run (b : Branch) (node : Node) (a : Acc) : Acc :=
  match b with
  | PlainImport =>
      snd (addImport rootDir path baseUrl paths (extractImport node) a)
  | ExportByAssignment => addExport file "default" node a
  | ExportWithoutSpecifier =>
      fold_left (fun a' e => addExport file e node a')
                (extractExportStatement node) a
  | ExportWithSpecifier => exportFromBody node a
  | DynamicImportScan =>
      addDynamicImports node (addImport rootDir path baseUrl paths) a
  | ExportModifier => exportModifierBody node a
  end.

End Fired.

End Branches.

(* ===================================================================== *)
(** * A small project to run the definitions on *)
(* ===================================================================== *)

Module Demo.
Import JsString Ts Types Host.

Definition newline : ascii := ascii_of_nat 10.

(** The part of [p] below the directory [root], [p] itself when it is not
    below [root]. *)
Fixpoint strip_prefix (pre s : string) : option string :=
  match pre, s with
  | EmptyString, _ => Some s
  | String a pre', String b s' =>
      if Ascii.eqb a b then strip_prefix pre' s' else None
  | String _ _, EmptyString => None
  end.

Definition demo_relative (root p : string) : string :=
  match strip_prefix (root +:+ "/") p with
  | Some rest => rest
  | None => p
  end.

Definition demo_resolve (root p : string) : string := root +:+ "/" +:+ p.

(** The length of the first line of [s]. *)
Fixpoint line_length (s : string) : Z :=
  match s with
  | EmptyString => 0
  | String c s' => if Ascii.eqb c newline then 0 else 1 + line_length s'
  end.

(** A line comment that starts at [pos]. *)
Definition demo_comment_ranges (text : string) (pos : Z) : list CommentRange :=
  let rest := substring text pos (jslength text) in
  if starts_with "//" rest
  then [{| cr_pos := pos; cr_end := pos + line_length rest |}]
  else [].

(** On disk: every file can be read but [/proj/missing.ts]; every text
    parses but [/proj/broken.ts]. *)
Definition demo_readFileSync (p : string) : Outcome string :=
  if String.eqb p "/proj/missing.ts" then Thrown (FileReadError p)
  else Returned ("// " +:+ p).

Definition demo_createSourceFile (p text : string) : Outcome SourceFile :=
  if String.eqb p "/proj/broken.ts" then Thrown (ParseError p)
  else Returned {| fullText := text; children := [] |}.

(** Relative specifiers resolve, to their text after [./]; others do not. *)
Definition demo_moduleKey (rootDir path : string) (m : option MatchPath)
    (baseDir baseUrl : option string) (spec : string) : option string :=
  strip_prefix "./" spec.

Definition demo_names (n : Node) : What :=
  if starts_with "export *" (nodeText n) then Star
  else if starts_with "export {}" (nodeText n) then Names []
  else Names ["x"].

#[export] Instance demoHost : Collaborators := {|
  relative := demo_relative;
  resolve := demo_resolve;
  readFileSync := demo_readFileSync;
  createSourceFile := demo_createSourceFile;
  getLeadingCommentRanges := demo_comment_ranges;
  createMatchPath := fun _ _ _ => None;
  star := ["*"];
  extractImport := fun n => {| specifier := "./m"; what := Names ["y"] |};
  moduleKey := demo_moduleKey;
  extractExportStatement := fun _ => ["a"; "c"];
  extractExportFromImport :=
    fun n ms => {| specifier := expr_text ms; what := demo_names n |};
  extractExport := fun _ _ => "";
  mayContainDynamicImports :=
    fun n => negb (indexOf (nodeText n) "import(" =? -1);
  dynamicImportsOf :=
    fun n => if indexOf (nodeText n) "import(" =? -1 then []
             else [{| specifier := "./lazy"; what := Star |}]
|}.

(** A statement at position [pos] with text [text]. *)
Definition statement (k : SyntaxKind) (pos : Z) (text : string)
    (ms : option string) (mods : option (list SyntaxKind))
    (nm : option string) : Node :=
  {| kind := k;
     fullStart := pos;
     nodeStart := pos;
     nodeEnd := pos + jslength text;
     modifiers := (fun l => List.map (fun m => {| mod_kind := m |}) l) <$> mods;
     name := nm;
     moduleSpecifier := (fun s => {| expr_text := s |}) <$> ms;
     nodeText := text |}.

(** [export * from './m'] *)
Definition wildcard_reexport : Node :=
  statement ExportDeclaration 0 "export * from './m'" (Some "./m") None None.

(** [export { x } from './m'] *)
Definition named_reexport : Node :=
  statement ExportDeclaration 0 "export { x } from './m'" (Some "./m") None None.

(** [export { x } from 'lodash'] *)
Definition package_reexport : Node :=
  statement ExportDeclaration 0 "export { x } from 'lodash'" (Some "lodash")
            None None.

(** [export {} from './m'] *)
Definition empty_reexport : Node :=
  statement ExportDeclaration 0 "export {} from './m'" (Some "./m") None None.

(** [export function load() { return import('./lazy'); }] *)
Definition exported_loader : Node :=
  statement (OtherKind 244) 0
            "export function load() { return import('./lazy'); }"
            None (Some [ExportKeyword]) (Some "load").

Definition a_file (text : string) (nodes : list Node) : SourceFile :=
  {| fullText := text; children := nodes |}.

(** [export function f() {}] *)
Definition exported_function : Node :=
  statement (OtherKind 244) 0 "export function f() {}"
            None (Some [ExportKeyword]) (Some "f").

(** The exported function below the directive, below a comment that
    differs from the directive by one space at its end, and alone. *)
Definition suppressed_file : SourceFile :=
  a_file ("// ts-unused-exports:disable-next-line"
          +:+ String newline "export function f() {}")
         [exported_function].

Definition near_miss_file : SourceFile :=
  a_file ("// ts-unused-exports:disable-next-line "
          +:+ String newline "export function f() {}")
         [exported_function].

Definition plain_file : SourceFile :=
  a_file "export function f() {}" [exported_function].

(** Four configured files, one of them an ambient declaration file, one of
    them listed twice. *)
Definition demo_config : TsConfig :=
  {| baseUrl := None; files := ["a.ts"; "types.d.ts"; "b.ts"; "a.ts"];
     paths := None |}.

(** Three configured files, the second of which cannot be read. *)
Definition failing_config : TsConfig :=
  {| baseUrl := None; files := ["a.ts"; "missing.ts"; "b.ts"];
     paths := None |}.

Definition exclude_declarations : option ExtraCommandLineOptions :=
  Some {| excludeDeclarationFiles := Some true |}.

Definition default_options : option ExtraCommandLineOptions :=
  Some {| excludeDeclarationFiles := None |}.

End Demo.

(* ===================================================================== *)
(** * The entry point, and the vocabulary of the further properties *)
(* ===================================================================== *)

Module Entry.
Import Types Host Project.

(** The default export of [parser.ts]. *)
Definition parseFiles `{Collaborators} (rootDir : string) (tsConfig : TsConfig)
    (extraOptions : option ExtraCommandLineOptions) : Outcome (list File) :=
  parsePaths rootDir tsConfig extraOptions.

End Entry.

Module Shapes.
Import JsString Regex Ts Types Host Filename Mapper.

(** [s] ends with [suffix]. *)
Definition ends_with (s suffix : string) : Prop :=
  exists front : string, s = front +:+ suffix.

(** A dot occurs in [s]. *)
Fixpoint has_dot (s : string) : bool :=
  match s with
  | EmptyString => false
  | String c s' => Ascii.eqb c dot || has_dot s'
  end.

(** A character of the class [[\\/]]. *)
Definition is_sep (c : ascii) : bool := mem_ascii c [backslash; slash].

(** [s] without the word [w] it starts with. *)
Fixpoint drop_prefix (w s : string) : option string :=
  match w, s with
  | EmptyString, _ => Some s
  | String a w', String b s' =>
      if Ascii.eqb b a then drop_prefix w' s' else None
  | String _ _, EmptyString => None
  end.

(** [t] is a dot followed by text without a dot: a final extension. *)
Definition ext_here (t : string) : bool :=
  match t with
  | String c e => Ascii.eqb c dot && negb (has_dot e)
  | EmptyString => false
  end.

(** [t] is a separator, the word [index] and a final extension. *)
Definition index_ext_here (t : string) : bool :=
  match t with
  | String c t' =>
      is_sep c &&
      match drop_prefix "index" t' with
      | Some t'' => ext_here t''
      | None => false
      end
  | EmptyString => false
  end.

(** [front] without the segment [/index] (or [\index]) it ends with. *)
Fixpoint strip_index (front : string) : string :=
  match front with
  | EmptyString => EmptyString
  | String c front' =>
      if is_sep c && String.eqb front' "index" then EmptyString
      else String c (strip_index front')
  end.

(** The location entry [addExportCore] makes for a name at a node. *)
Definition location_of (node : Node) (exportName : string) : LocationInFile :=
  {| loc_name := exportName; loc_span := (nodeStart node, nodeEnd node) |}.

(** [a'] has what [a] has and possibly more: [exports] and
    [exportLocations] continue those of [a], and every entry of [imports]
    continues the entry of [a]. *)
Definition extends (a a' : Acc) : Prop :=
  (exists more, acc_exports a' = acc_exports a ++ more) /\
  (exists more, acc_exportLocations a' = acc_exportLocations a ++ more) /\
  (forall k names,
     acc_imports a !! k = Some names ->
     exists more, acc_imports a' !! k = Some (names ++ more)).

(** The names of the location entries occur in [exports], in order. *)
Definition located (a : Acc) : Prop :=
  sublist (List.map loc_name (acc_exportLocations a)) (acc_exports a).

(** The accumulators after the callback has visited [nodes]. *)
Definition visitAll `{Collaborators} (rootDir path : string) (file : SourceFile)
    (baseUrl : option string) (paths : option (gmap string (list string)))
    (nodes : list Node) (a : Acc) : Acc :=
  fold_left (fun a' node => visitNode rootDir path file baseUrl paths node a')
            nodes a.

End Shapes.

Module MoreDemo.
Import JsString Ts Types Host Demo.

(** [export { a, b as c }] *)
Definition local_export : Node :=
  statement ExportDeclaration 0 "export { a, b as c }" None None None.

(** [export default function f() {}] *)
Definition default_function : Node :=
  statement (OtherKind 244) 0 "export default function f() {}"
            None (Some [ExportKeyword; DefaultKeyword]) (Some "f").

(** [const z = 1;] *)
Definition plain_statement : Node :=
  statement (OtherKind 225) 0 "const z = 1;" None None None.

(** A file without comments holding the statements [nodes]. *)
Definition bare_file (nodes : list Node) : SourceFile :=
  a_file "" nodes.

(** Only declaration files are configured. *)
Definition declarations_only : TsConfig :=
  {| baseUrl := None; files := ["types.d.ts"; "lib.d.x/foo.ts"];
     paths := None |}.

End MoreDemo.

Module FileAcc.
Import Types Mapper.

(** The three sequences of a [File], as accumulators. *)
Definition acc_of (f : File) : Acc :=
  {| acc_imports := imports f;
     acc_exports := exports f;
     acc_exportLocations := exportLocations f |}.

(** The source file with the text [text] and the statements [nodes]. *)
Definition source (text : string) (nodes : list Ts.Node) : Ts.SourceFile :=
  {| Ts.fullText := text; Ts.children := nodes |}.

End FileAcc.

(* ===================================================================== *)
(** * Properties *)
(* ===================================================================== *)

(** ** [indexOf] finds a substring exactly when there is one *)

Module JsStringFacts.
Import JsString.

Lemma starts_with_app (needle post : string) :
  starts_with needle (needle +:+ post) = true.
Proof.
  induction needle as [|c needle IH]; simpl; [done|].
  by rewrite Ascii.eqb_refl, IH.
Qed.

Lemma starts_with_inv (needle s : string) :
  starts_with needle s = true -> exists post, s = needle +:+ post.
Proof.
  revert s. induction needle as [|c needle IH]; intros s Hs.
  - by exists s.
  - destruct s as [|d s]; simpl in Hs; [done|].
    apply andb_true_iff in Hs as [Hc Hs].
    apply Ascii.eqb_eq in Hc as ->.
    destruct (IH _ Hs) as [post ->]. by exists post.
Qed.

Lemma contains_cons (c : ascii) (s needle : string) :
  starts_with needle (String c s) = false ->
  contains (String c s) needle -> contains s needle.
Proof.
  intros Hno (pre & post & Heq).
  destruct pre as [|d pre].
  - rewrite Heq in Hno. change ("" +:+ needle +:+ post) with (needle +:+ post) in Hno.
    by rewrite starts_with_app in Hno.
  - injection Heq as _ ->. by exists pre, post.
Qed.

Lemma indexOf_from_lower (needle s : string) (i : Z) :
  indexOf_from needle s i = -1 \/ i <= indexOf_from needle s i.
Proof.
  revert i. induction s as [|c s IH]; intros i; simpl.
  - destruct (starts_with needle ""); lia.
  - destruct (starts_with needle (String c s)); [lia|].
    destruct (IH (i + 1)); lia.
Qed.

Lemma indexOf_from_none (needle s : string) (i : Z) :
  0 <= i ->
  indexOf_from needle s i = -1 <-> ~ contains s needle.
Proof.
  revert i. induction s as [|c s IH]; intros i Hi; simpl.
  - destruct (starts_with needle "") eqn:Hst.
    + split; [lia|]. intros Hn. exfalso. apply Hn.
      apply starts_with_inv in Hst as [post Hpost]. by exists "", post.
    + split; [|done]. intros _ (pre & post & Heq).
      destruct pre; [|done].
      change ("" +:+ needle +:+ post) with (needle +:+ post) in Heq.
      by rewrite Heq, starts_with_app in Hst.
  - destruct (starts_with needle (String c s)) eqn:Hst.
    + split; [lia|]. intros Hn. exfalso. apply Hn.
      apply starts_with_inv in Hst as [post Hpost]. by exists "", post.
    + rewrite IH by lia. split.
      * intros Hn Hc. apply Hn. by eapply contains_cons.
      * intros Hn (pre & post & ->). apply Hn.
        by exists (String c pre), post.
Qed.

(** [s.indexOf(needle) === -1] exactly when [needle] does not occur in [s]. *)
Lemma indexOf_none (s needle : string) :
  (indexOf s needle =? -1) = true <-> ~ contains s needle.
Proof.
  unfold indexOf. rewrite Z.eqb_eq. by apply indexOf_from_none.
Qed.

Lemma indexOf_from_found (needle s : string) (i : Z) :
  indexOf_from needle s i <> -1 -> contains s needle.
Proof.
  revert i. induction s as [|c s IH]; intros i; simpl.
  - destruct (starts_with needle "") eqn:Hst; [|done].
    intros _. apply starts_with_inv in Hst as [post ->]. by exists "", post.
  - destruct (starts_with needle (String c s)) eqn:Hst.
    + intros _. apply starts_with_inv in Hst as [post ->]. by exists "", post.
    + intros Hne. destruct (IH _ Hne) as (pre & post & ->).
      by exists (String c pre), post.
Qed.

Lemma indexOf_found (s needle : string) :
  (indexOf s needle =? -1) = false <-> contains s needle.
Proof.
  split.
  - intros E. apply Z.eqb_neq in E. by apply indexOf_from_found in E.
  - intros Hc. apply not_true_iff_false. rewrite indexOf_none. tauto.
Qed.

End JsStringFacts.

(** ** The normaliser and the filter on a few paths *)

Module Examples.
Import JsString Regex Ts Types Host Filename Comment Project.

Example extractFilename_nested :
  extractFilename (H:=Demo.demoHost) "/proj" "/proj/src/a.b/util.ts"
  = "src/a.b/util".
Proof. reflexivity. Qed.

Example extractFilename_declaration :
  extractFilename (H:=Demo.demoHost) "/proj" "/proj/src/types.d.ts"
  = "src/types".
Proof. reflexivity. Qed.

Example extractFilename_top_index :
  extractFilename (H:=Demo.demoHost) "/proj" "/proj/index.ts" = "index".
Proof. reflexivity. Qed.

Example extractFilename_no_extension :
  extractFilename (H:=Demo.demoHost) "/proj" "/proj/bin/run" = "bin/run".
Proof. reflexivity. Qed.

Example replace_backslash_index :
  replace index_ext_re ""
          (String "f" (String backslash "index.tsx")) = "f".
Proof. reflexivity. Qed.

Example indexOf_positions :
  indexOf "foo.d.backup.ts" ".d." = 3 /\
  indexOf "lib.d.x/foo.ts" ".d." = 3 /\
  indexOf "foo.ts" ".d." = -1 /\
  indexOf "foo.d" ".d." = -1.
Proof. repeat split. Qed.

Example substring_swaps_and_clamps :
  substring "export" 4 2 = "po" /\ substring "export" (-3) 99 = "export".
Proof. split; reflexivity. Qed.

Example keepPath_table :
  keepPath None "types.d.ts" = false /\
  keepPath Demo.default_options "types.d.ts" = true /\
  keepPath (Some {| excludeDeclarationFiles := Some false |}) "types.d.ts" = true /\
  keepPath Demo.exclude_declarations "types.d.ts" = false /\
  keepPath Demo.exclude_declarations "a.ts" = true.
Proof. repeat split. Qed.

Example directive_is_exact :
  isNodeDisabledViaComment (H:=Demo.demoHost)
    Demo.exported_function Demo.suppressed_file = true /\
  isNodeDisabledViaComment (H:=Demo.demoHost)
    Demo.exported_function Demo.near_miss_file = false /\
  isNodeDisabledViaComment (H:=Demo.demoHost)
    Demo.exported_function Demo.plain_file = false.
Proof. repeat split. Qed.

End Examples.

(** ** Calls that may throw *)

Module OutcomeFacts.
Import Types.

Section MapThrowing.
Context {A B : Type} (f : A -> Outcome B).

Lemma map_throwing_returned (xs : list A) (ys : list B) :
  map_throwing f xs = Returned ys ->
  Forall2 (fun x y => f x = Returned y) xs ys.
Proof.
  revert ys. induction xs as [|x xs IH]; intros ys; simpl.
  - intros [= <-]. constructor.
  - destruct (f x) as [y|e] eqn:Hx; simpl; [|done].
    destruct (map_throwing f xs) as [ys'|e]; simpl; [|done].
    intros [= <-]. constructor; auto.
Qed.

Lemma map_throwing_total (xs : list A) :
  (forall x, In x xs -> exists y, f x = Returned y) ->
  exists ys, map_throwing f xs = Returned ys.
Proof.
  induction xs as [|x xs IH]; intros Hall; simpl.
  - by exists [].
  - destruct (Hall x) as [y ->]; [by left|]. simpl.
    destruct IH as [ys ->]; [intros x' Hx'; apply Hall; by right|].
    by exists (y :: ys).
Qed.

(** The first call that throws ends the loop with its exception. *)
Lemma map_throwing_first_thrown (pre post : list A) (x : A) (e : Exn) :
  (forall x', In x' pre -> exists y, f x' = Returned y) ->
  f x = Thrown e ->
  map_throwing f (pre ++ x :: post) = Thrown e.
Proof.
  induction pre as [|x' pre IH]; intros Hpre Hx; simpl.
  - by rewrite Hx.
  - destruct (Hpre x') as [y ->]; [by left|]. simpl.
    rewrite IH; [done| |done]. intros z Hz. apply Hpre. by right.
Qed.

Lemma map_throwing_thrown (xs : list A) (x : A) (e : Exn) :
  In x xs -> f x = Thrown e ->
  exists x' e', In x' xs /\ f x' = Thrown e' /\
                map_throwing f xs = Thrown e'.
Proof.
  induction xs as [|x0 xs IH]; intros Hin Hx; simpl; [done|].
  destruct (f x0) as [y|e0] eqn:Hx0; simpl.
  - destruct Hin as [->|Hin]; [congruence|].
    destruct (IH Hin Hx) as (x' & e' & Hin' & Hx' & ->).
    exists x', e'. auto.
  - exists x0, e0. auto.
Qed.
End MapThrowing.

End OutcomeFacts.

(** ** ProjectParser *)

Module ProjectFacts.
Import JsString JsStringFacts Ts Types Host Mapper Project OutcomeFacts.

Lemma keepPath_spec (extraOptions : option ExtraCommandLineOptions) (p : string) :
  keepPath extraOptions p = true <->
  (~ contains p ".d." \/
   exists o, extraOptions = Some o /\ excludeDeclarationFiles o <> Some true).
Proof.
  unfold keepPath. rewrite orb_true_iff, indexOf_none. split.
  - intros [Hinc|Hno]; [right|by left].
    destruct extraOptions as [o|]; simpl in Hinc; [|done].
    exists o. split; [done|]. intros Heq. by rewrite Heq in Hinc.
  - intros [Hno|(o & -> & Hne)]; [by right|left]. simpl.
    destruct (excludeDeclarationFiles o) as [[]|]; done.
Qed.

Section Parse.
Context `{Collaborators}.

Lemma parseFile_returned (rootDir path : string) (baseUrl : option string)
    (paths : option (gmap string (list string))) (f : File) :
  parseFile rootDir path baseUrl paths = Returned f ->
  exists text sourceFile,
    readFileSync path = Returned text /\
    createSourceFile path text = Returned sourceFile /\
    f = mapFile rootDir path sourceFile baseUrl paths.
Proof.
  unfold parseFile.
  destruct (readFileSync path) as [text|e] eqn:Hread; simpl; [|done].
  destruct (createSourceFile path text) as [sf|e] eqn:Hparse; simpl; [|done].
  intros [= <-]. by exists text, sf.
Qed.

Lemma parseFile_fullPath (rootDir path : string) (baseUrl : option string)
    (paths : option (gmap string (list string))) (f : File) :
  parseFile rootDir path baseUrl paths = Returned f -> fullPath f = path.
Proof.
  intros Hf. apply parseFile_returned in Hf as (text & sf & _ & _ & ->). done.
Qed.

(** A failing read or a failing parse makes [parseFile] throw. *)
Lemma parseFile_thrown (rootDir path : string) (baseUrl : option string)
    (paths : option (gmap string (list string))) (e : Exn) :
  (readFileSync path = Thrown e \/
   exists text, readFileSync path = Returned text /\
                createSourceFile path text = Thrown e) ->
  parseFile rootDir path baseUrl paths = Thrown e.
Proof.
  unfold parseFile. intros [->|(text & -> & Hp)]; simpl; [done|].
  by rewrite Hp.
Qed.

(** The files returned are, one for one and in order, the files of the
    paths that passed the filter. *)
Lemma parsePaths_returned (rootDir : string) (tsConfig : TsConfig)
    (extraOptions : option ExtraCommandLineOptions) (fs : list File) :
  parsePaths rootDir tsConfig extraOptions = Returned fs ->
  Forall2 (fun p f => parseFile rootDir (resolve rootDir p)
                                (baseUrl tsConfig) (paths tsConfig) = Returned f)
          (filteredPaths (files tsConfig) extraOptions) fs.
Proof. unfold parsePaths. apply map_throwing_returned. Qed.

Lemma parsePaths_fullPaths (rootDir : string) (tsConfig : TsConfig)
    (extraOptions : option ExtraCommandLineOptions) (fs : list File) :
  parsePaths rootDir tsConfig extraOptions = Returned fs ->
  List.map fullPath fs =
  List.map (resolve rootDir) (filteredPaths (files tsConfig) extraOptions).
Proof.
  intros Hfs. apply parsePaths_returned in Hfs.
  induction Hfs as [|p f ps fs' Hp _ IH]; simpl; [done|].
  by rewrite IH, (parseFile_fullPath _ _ _ _ _ Hp).
Qed.
End Parse.

End ProjectFacts.

(** ** FileMapper *)

Module MapperFacts.
Import JsString Ts Types Host Comment Mapper Branches.

Section Facts.
Context `{Collaborators}.
Variables (rootDir path : string) (file : SourceFile).
Variables (baseUrl : option string) (paths : option (gmap string (list string))).

Local Abbreviation addImport' := (addImport rootDir path baseUrl paths).
Local Abbreviation dispatch' := (dispatch rootDir path file baseUrl paths).
Local Abbreviation visitNode' := (visitNode rootDir path file baseUrl paths).
Local Abbreviation run' := (run rootDir path file baseUrl paths).

Lemma isNodeDisabledViaComment_true (node : Node) :
  isNodeDisabledViaComment node file = true <->
  exists r,
    last (getLeadingCommentRanges (fullText file) (fullStart node)) = Some r /\
    substring (fullText file) (cr_pos r) (cr_end r) = directive.
Proof.
  unfold isNodeDisabledViaComment.
  destruct (last _) as [r|]; [|split; [done|by intros (r & ? & _)]].
  destruct (String.eqb_spec (substring (fullText file) (cr_pos r) (cr_end r))
                            directive) as [Heq|Hne].
  - split; [|done]. intros _. by exists r.
  - split; [done|]. intros (r' & [= <-] & Heq). done.
Qed.

Lemma visitNode_disabled (node : Node) (a : Acc) :
  isNodeDisabledViaComment node file = true -> visitNode' node a = a.
Proof. unfold visitNode. by intros ->. Qed.

Lemma visitNode_enabled (node : Node) (a : Acc) :
  isNodeDisabledViaComment node file = false ->
  visitNode' node a = dispatch' node a.
Proof. unfold visitNode. by intros ->. Qed.

(** [addImport] touches [imports] only. *)
Lemma addImport_exports (fw : FromWhat) (a : Acc) :
  acc_exports (snd (addImport' fw a)) = acc_exports a /\
  acc_exportLocations (snd (addImport' fw a)) = acc_exportLocations a.
Proof.
  unfold addImport. by destruct (addImportCore _ _ _ _ _ _ _).
Qed.

(** [addImport] with a specifier that resolves to [k]. *)
Lemma addImport_resolved (fw : FromWhat) (a : Acc) (k : string) :
  moduleKey rootDir path (tsconfigPathsMatcher rootDir baseUrl paths)
            (baseDir rootDir baseUrl) baseUrl (specifier fw) = Some k ->
  addImport' fw a =
  (Some k,
   {| acc_imports :=
        <[k := default [] (acc_imports a !! k) ++ what_names (what fw)]>
          (acc_imports a);
      acc_exports := acc_exports a;
      acc_exportLocations := acc_exportLocations a |}).
Proof. unfold addImport, addImportCore. by intros ->. Qed.

(** [addImport] with a specifier that does not resolve. *)
Lemma addImport_unresolved (fw : FromWhat) (a : Acc) :
  moduleKey rootDir path (tsconfigPathsMatcher rootDir baseUrl paths)
            (baseDir rootDir baseUrl) baseUrl (specifier fw) = None ->
  addImport' fw a = (None, a).
Proof. unfold addImport, addImportCore. intros ->. by destruct a. Qed.

Lemma addDynamicImports_exports (node : Node) (a : Acc) :
  acc_exports (addDynamicImports node addImport' a) = acc_exports a /\
  acc_exportLocations (addDynamicImports node addImport' a)
  = acc_exportLocations a.
Proof.
  unfold addDynamicImports. revert a.
  induction (dynamicImportsOf node) as [|fw fws IH]; intros a; simpl; [done|].
  destruct (IH (snd (addImport' fw a))) as [-> ->].
  apply addImport_exports.
Qed.

(** [addExport] appends one name and one location. *)
Lemma addExport_unlocated (exportName : string) (node : Node) (a : Acc) :
  unlocated (addExport file exportName node a) = unlocated a.
Proof.
  unfold unlocated, addExport, addExportCore; simpl.
  rewrite !length_app; simpl. lia.
Qed.

Lemma addExport_imports (exportName : string) (node : Node) (a : Acc) :
  acc_imports (addExport file exportName node a) = acc_imports a.
Proof. done. Qed.

Lemma addExports_unlocated (names : list string) (node : Node) (a : Acc) :
  unlocated (fold_left (fun a' e => addExport file e node a') names a)
  = unlocated a.
Proof.
  revert a. induction names as [|e names IH]; intros a; simpl; [done|].
  by rewrite IH, addExport_unlocated.
Qed.

Lemma unlocated_same (a a' : Acc) :
  acc_exports a' = acc_exports a ->
  acc_exportLocations a' = acc_exportLocations a ->
  unlocated a' = unlocated a.
Proof. unfold unlocated. by intros -> ->. Qed.

Lemma visitOther_unlocated (node : Node) (a : Acc) :
  unlocated (visitOther rootDir path file baseUrl paths node a) = unlocated a.
Proof.
  unfold visitOther.
  set (a1 := if mayContainDynamicImports node
             then addDynamicImports node addImport' a else a).
  assert (Ha1 : unlocated a1 = unlocated a).
  { subst a1. destruct (mayContainDynamicImports node); [|done].
    destruct (addDynamicImports_exports node a). by apply unlocated_same. }
  destruct (truthy_obool (hasModifier node ExportKeyword)); [|done].
  destruct (truthy_obool (hasModifier node DefaultKeyword)).
  - by rewrite addExport_unlocated.
  - destruct (truthy_string _); [|done]. by rewrite addExport_unlocated.
Qed.

(** The callback runs the branches that fire, in order. *)
Lemma dispatch_fired (node : Node) (a : Acc) :
  dispatch' node a = fold_left (fun a' b => run' b node a') (fired node) a.
Proof.
  unfold dispatch, fired.
  destruct (kind node); try reflexivity;
    [ unfold run, exportFromBody; destruct (moduleSpecifier node); reflexivity
    | .. ];
    unfold visitOther;
    destruct (mayContainDynamicImports node),
             (truthy_obool (hasModifier node ExportKeyword)); reflexivity.
Qed.

(** The callback reads the file only for the comment check: its text. *)
Lemma dispatch_file (file' : SourceFile) (node : Node) (a : Acc) :
  dispatch' node a = dispatch rootDir path file' baseUrl paths node a.
Proof. reflexivity. Qed.

Lemma truthy_string_ne (s : string) : truthy_string s = true <-> s <> "".
Proof. destruct s; simpl; split; congruence. Qed.

End Facts.

End MapperFacts.

(* ===================================================================== *)
(** * The claims of the specification *)
(* ===================================================================== *)

Import JsString JsStringFacts Regex Ts Types Host Filename Comment Mapper.
Import Project Branches OutcomeFacts ProjectFacts MapperFacts.

(** ** ProjectParser *)

(** C1, as the code has it: of the configured paths, [parsePaths] keeps
    those that do not contain [.d.], and keeps the others too exactly when
    the options record is given and its [excludeDeclarationFiles] is not
    [true] (unset or [false]).  Without an options record the paths that
    contain [.d.] are dropped.  The files returned are those of the kept
    paths. *)
Theorem parsePaths_declaration_policy `{Collaborators}
    (rootDir : string) (tsConfig : TsConfig)
    (extraOptions : option ExtraCommandLineOptions) :
  (forall p,
     In p (filteredPaths (files tsConfig) extraOptions) <->
     In p (files tsConfig) /\
     (~ contains p ".d." \/
      exists o, extraOptions = Some o /\ excludeDeclarationFiles o <> Some true))
  /\
  (forall fs,
     parsePaths rootDir tsConfig extraOptions = Returned fs ->
     List.map fullPath fs =
     List.map (resolve rootDir) (filteredPaths (files tsConfig) extraOptions)).
Proof.
  split.
  - intros p. unfold filteredPaths. by rewrite filter_In, keepPath_spec.
  - intros fs. apply parsePaths_fullPaths.
Qed.

Lemma parsePaths_declaration_policy_witness :
  In "types.d.ts" (filteredPaths (files Demo.demo_config) Demo.default_options).
Proof.
  apply (proj1 (parsePaths_declaration_policy (H:=Demo.demoHost) "/proj"
                  Demo.demo_config Demo.default_options)).
  split; [simpl; tauto|].
  right. eexists. split; [reflexivity|]. simpl. discriminate.
Defined.

(** C1, as the claim has it, fails: without an options record the
    declaration path is dropped, although [excludeDeclarationFiles] was
    never set to [true]. *)
Lemma parsePaths_without_options_drops_declarations :
  ~ In "types.d.ts" (filteredPaths (files Demo.demo_config) None) /\
  exists fs,
    parsePaths (H:=Demo.demoHost) "/proj" Demo.demo_config None = Returned fs /\
    List.map fullPath fs = ["/proj/a.ts"; "/proj/b.ts"; "/proj/a.ts"].
Proof.
  split.
  - vm_compute. intuition discriminate.
  - eexists. split; reflexivity.
Qed.

(** C9: while the filter is active (no options record, or
    [excludeDeclarationFiles] true), [parsePaths] drops exactly the paths
    that contain [.d.] somewhere, whatever their final extension: a path
    survives if and only if [.d.] does not occur in it, and every file
    returned belongs to such a path. *)
Theorem parsePaths_drops_every_dot_d_dot `{Collaborators}
    (rootDir : string) (tsConfig : TsConfig)
    (extraOptions : option ExtraCommandLineOptions) :
  truthy_obool (includeDeclarationFiles extraOptions) = false ->
  (forall p,
     In p (filteredPaths (files tsConfig) extraOptions) <->
     In p (files tsConfig) /\ ~ contains p ".d.")
  /\
  (forall fs f,
     parsePaths rootDir tsConfig extraOptions = Returned fs ->
     In f fs ->
     exists p, In p (files tsConfig) /\ ~ contains p ".d." /\
               fullPath f = resolve rootDir p).
Proof.
  intros Hactive.
  assert (Hkeep : forall p,
    In p (filteredPaths (files tsConfig) extraOptions) <->
    In p (files tsConfig) /\ ~ contains p ".d.").
  { intros p. unfold filteredPaths, keepPath.
    by rewrite filter_In, Hactive, orb_false_l, indexOf_none. }
  split; [exact Hkeep|].
  intros fs f Hfs Hf.
  apply parsePaths_fullPaths in Hfs.
  apply (in_map fullPath) in Hf. rewrite Hfs in Hf.
  apply in_map_iff in Hf as (p & Hp & Hin).
  apply Hkeep in Hin as [Hin Hno]. by exists p.
Qed.

Lemma parsePaths_drops_every_dot_d_dot_witness :
  ~ In "foo.d.backup.ts"
       (filteredPaths ["foo.d.backup.ts"; "lib.d.x/foo.ts"; "foo.ts"]
                      Demo.exclude_declarations) /\
  ~ In "lib.d.x/foo.ts"
       (filteredPaths ["foo.d.backup.ts"; "lib.d.x/foo.ts"; "foo.ts"]
                      Demo.exclude_declarations).
Proof.
  pose proof (proj1 (parsePaths_drops_every_dot_d_dot (H:=Demo.demoHost) "/proj"
    {| baseUrl := None;
       files := ["foo.d.backup.ts"; "lib.d.x/foo.ts"; "foo.ts"];
       paths := None |}
    Demo.exclude_declarations eq_refl)) as Hkeep.
  split; intros Hin; apply Hkeep in Hin as [_ Hno]; apply Hno.
  - by exists "foo", "backup.ts".
  - by exists "lib", "x/foo.ts".
Defined.

(** C8: the files [parsePaths] returns are, position by position, the
    files of the paths that passed the filter, and those paths are the
    configured paths in their original order with every repetition kept:
    nothing is sorted and no duplicate is removed.  A result is returned
    whenever every surviving file can be read and parsed. *)
Theorem parsePaths_preserves_order `{Collaborators}
    (rootDir : string) (tsConfig : TsConfig)
    (extraOptions : option ExtraCommandLineOptions) :
  (forall fs,
     parsePaths rootDir tsConfig extraOptions = Returned fs ->
     List.map fullPath fs =
     List.map (resolve rootDir) (filteredPaths (files tsConfig) extraOptions))
  /\
  ((forall p, In p (filteredPaths (files tsConfig) extraOptions) ->
      exists f, parseFile rootDir (resolve rootDir p)
                          (baseUrl tsConfig) (paths tsConfig) = Returned f) ->
   exists fs, parsePaths rootDir tsConfig extraOptions = Returned fs)
  /\
  sublist (filteredPaths (files tsConfig) extraOptions) (files tsConfig)
  /\
  (forall p, keepPath extraOptions p = true ->
     count_occ String.string_dec (filteredPaths (files tsConfig) extraOptions) p =
     count_occ String.string_dec (files tsConfig) p).
Proof.
  split; [intros fs; apply parsePaths_fullPaths|].
  split; [intros Hall; unfold parsePaths; by apply map_throwing_total|].
  unfold filteredPaths. split.
  - induction (files tsConfig) as [|q l IH]; simpl; [constructor|].
    destruct (keepPath extraOptions q); by constructor.
  - intros p Hp. induction (files tsConfig) as [|q l IH]; simpl; [done|].
    destruct (keepPath extraOptions q) eqn:Hq; simpl.
    + destruct (String.string_dec q p); by rewrite IH.
    + destruct (String.string_dec q p) as [->|]; [congruence|done].
Qed.

Lemma parsePaths_preserves_order_witness :
  exists fs,
    parsePaths (H:=Demo.demoHost) "/proj" Demo.demo_config Demo.default_options
      = Returned fs /\
    List.map fullPath fs =
      ["/proj/a.ts"; "/proj/types.d.ts"; "/proj/b.ts"; "/proj/a.ts"].
Proof.
  destruct (parsePaths_preserves_order (H:=Demo.demoHost) "/proj"
              Demo.demo_config Demo.default_options)
    as (Horder & Htotal & _).
  destruct Htotal as [fs Hfs].
  { intros p Hp. vm_compute in Hp.
    destruct Hp as [<-|[<-|[<-|[<-|[]]]]]; eexists; reflexivity. }
  exists fs. split; [exact Hfs|].
  rewrite (Horder fs Hfs). reflexivity.
Defined.

(** C6: when reading or parsing one of the surviving files fails,
    [parsePaths] throws: it returns no sequence of files at all, and what
    it throws is the failure of a surviving file. *)
Theorem parsePaths_failure_aborts `{Collaborators}
    (rootDir : string) (tsConfig : TsConfig)
    (extraOptions : option ExtraCommandLineOptions) (p : string) (e : Exn) :
  In p (filteredPaths (files tsConfig) extraOptions) ->
  (readFileSync (resolve rootDir p) = Thrown e \/
   exists text, readFileSync (resolve rootDir p) = Returned text /\
                createSourceFile (resolve rootDir p) text = Thrown e) ->
  (exists p' e',
     In p' (filteredPaths (files tsConfig) extraOptions) /\
     parseFile rootDir (resolve rootDir p')
               (baseUrl tsConfig) (paths tsConfig) = Thrown e' /\
     parsePaths rootDir tsConfig extraOptions = Thrown e')
  /\
  (forall fs, parsePaths rootDir tsConfig extraOptions <> Returned fs).
Proof.
  intros Hin Hfail.
  apply (parseFile_thrown rootDir _ (baseUrl tsConfig) (paths tsConfig)) in Hfail.
  destruct (map_throwing_thrown
              (fun path => parseFile rootDir (resolve rootDir path)
                                     (baseUrl tsConfig) (paths tsConfig))
              _ p e Hin Hfail) as (p' & e' & Hin' & Hp' & Hall).
  split.
  - exists p', e'. auto.
  - intros fs. unfold parsePaths. rewrite Hall. discriminate.
Qed.

Lemma parsePaths_failure_aborts_witness :
  parsePaths (H:=Demo.demoHost) "/proj" Demo.failing_config Demo.default_options
  = Thrown (FileReadError "/proj/missing.ts").
Proof.
  destruct (parsePaths_failure_aborts (H:=Demo.demoHost) "/proj"
              Demo.failing_config Demo.default_options "missing.ts"
              (FileReadError "/proj/missing.ts"))
    as [(p' & e' & _ & _ & Hthrown) _].
  - vm_compute. tauto.
  - left. reflexivity.
  - rewrite Hthrown. vm_compute in Hthrown.
    injection Hthrown as <-. reflexivity.
Defined.

(** ** FilenameNormalizer *)

(** C2: [foo/index.ts] and [foo.ts] both normalise to [foo], but
    [foo/index.d.ts] normalises to [foo/index]: the first replacement
    removes only [.ts] (the text before the last dot ends in [.d], not in
    [/index]), and dropping [.d] afterwards leaves the [/index] segment in
    place. *)
Theorem extractFilename_foo_variants `{Collaborators}
    (rootDir p1 p2 p3 : string) :
  relative rootDir p1 = "foo/index.ts" ->
  relative rootDir p2 = "foo.ts" ->
  relative rootDir p3 = "foo/index.d.ts" ->
  extractFilename rootDir p1 = "foo" /\
  extractFilename rootDir p2 = "foo" /\
  extractFilename rootDir p3 = "foo/index".
Proof.
  intros H1 H2 H3. unfold extractFilename.
  rewrite H1, H2, H3. repeat split; reflexivity.
Qed.

Lemma extractFilename_foo_variants_witness :
  extractFilename (H:=Demo.demoHost) "/proj" "/proj/foo/index.ts" = "foo" /\
  extractFilename (H:=Demo.demoHost) "/proj" "/proj/foo.ts" = "foo" /\
  extractFilename (H:=Demo.demoHost) "/proj" "/proj/foo/index.d.ts" = "foo/index".
Proof.
  apply (extractFilename_foo_variants (H:=Demo.demoHost) "/proj");
    reflexivity.
Defined.

(** ** FileMapper *)

Section MapperClaims.
Context `{Collaborators}.
Variables (rootDir path : string) (file : SourceFile).
Variables (baseUrl : option string) (paths : option (gmap string (list string))).

Local Abbreviation visit := (visitNode rootDir path file baseUrl paths).
Local Abbreviation key_of :=
  (moduleKey rootDir path (tsconfigPathsMatcher rootDir baseUrl paths)
             (baseDir rootDir baseUrl) baseUrl).

(** C3: when the text of the closest comment before a statement is exactly
    the directive, the callback leaves [imports], [exports] and
    [exportLocations] as they were, and [mapFile] gives the file it would
    give without the statement.  When that text is anything else, the
    statement is processed as it is in a file where no comment precedes
    it. *)
Theorem directive_suppresses_statement
    (node : Node) (a : Acc) (commentRange : CommentRange) :
  last (getLeadingCommentRanges (fullText file) (fullStart node))
  = Some commentRange ->
  (substring (fullText file) (cr_pos commentRange) (cr_end commentRange)
   = directive ->
   visit node a = a /\
   forall pre post,
     children file = pre ++ node :: post ->
     mapFile rootDir path file baseUrl paths =
     mapFile rootDir path
             {| fullText := fullText file; children := pre ++ post |}
             baseUrl paths)
  /\
  (substring (fullText file) (cr_pos commentRange) (cr_end commentRange)
   <> directive ->
   forall file',
     getLeadingCommentRanges (fullText file') (fullStart node) = [] ->
     visit node a = visitNode rootDir path file' baseUrl paths node a).
Proof.
  intros Hlast. split.
  - intros Htext.
    assert (Hoff : isNodeDisabledViaComment node file = true).
    { apply isNodeDisabledViaComment_true. by exists commentRange. }
    split; [by apply visitNode_disabled|].
    intros pre post Hchildren. unfold mapFile. rewrite Hchildren. simpl.
    rewrite !fold_left_app. simpl.
    rewrite (visitNode_disabled _ _ _ _ _ _ _ Hoff). reflexivity.
  - intros Htext file' Hnone.
    rewrite visitNode_enabled.
    + rewrite visitNode_enabled; [reflexivity|].
      unfold isNodeDisabledViaComment. by rewrite Hnone.
    + apply not_true_iff_false. rewrite isNodeDisabledViaComment_true.
      intros (r & Hr & Hd). congruence.
Qed.

(** The callback on a wildcard re-export whose specifier resolves to the
    module key [k]: one entry is appended to [exports], the text [*:]
    followed by [k]; the wildcard is registered in [imports] under [k]. *)
Lemma visitNode_wildcard_reexport
    (node : Node) (ms : Expression) (k : string) (a : Acc) :
  isNodeDisabledViaComment node file = false ->
  kind node = ExportDeclaration ->
  moduleSpecifier node = Some ms ->
  what (extractExportFromImport node ms) = Star ->
  key_of (specifier (extractExportFromImport node ms)) = Some k ->
  k <> "" ->
  acc_exports (visit node a) = acc_exports a ++ ["*:" +:+ k] /\
  acc_imports (visit node a) =
    <[k := default [] (acc_imports a !! k) ++ star]> (acc_imports a).
Proof.
  intros Hon Hkind Hms Hstar Hkey Hk.
  rewrite visitNode_enabled by done.
  unfold dispatch. rewrite Hkind, Hms.
  rewrite (addImport_resolved _ _ _ _ _ _ k Hkey).
  apply truthy_string_ne in Hk. rewrite Hk, Hstar. simpl.
  split; reflexivity.
Qed.

(** The callback on a named re-export whose specifier resolves to the
    module key [k]: the names are registered in [imports] under [k], after
    those already there, and appended to [exports]. *)
Lemma visitNode_named_reexport
    (node : Node) (ms : Expression) (k : string) (ns : list string) (a : Acc) :
  isNodeDisabledViaComment node file = false ->
  kind node = ExportDeclaration ->
  moduleSpecifier node = Some ms ->
  what (extractExportFromImport node ms) = Names ns ->
  key_of (specifier (extractExportFromImport node ms)) = Some k ->
  k <> "" ->
  acc_imports (visit node a) !! k
  = Some (default [] (acc_imports a !! k) ++ ns) /\
  acc_exports (visit node a) = acc_exports a ++ ns.
Proof.
  intros Hon Hkind Hms Hnames Hkey Hk.
  rewrite visitNode_enabled by done.
  unfold dispatch. rewrite Hkind, Hms.
  rewrite (addImport_resolved _ _ _ _ _ _ k Hkey).
  apply truthy_string_ne in Hk. rewrite Hk, Hnames. simpl.
  split; [apply lookup_insert_eq|reflexivity].
Qed.

(** The callback runs the branches that fire for the statement, none for a
    disabled one; a kind branch that fires is the only one, and the scan
    for dynamic imports and the export-modifier branch fire only for
    statements of none of the three kinds, possibly both. *)
Lemma visitNode_branches (node : Node) (a : Acc) :
  visit node a =
    fold_left (fun a' b => run rootDir path file baseUrl paths b node a')
              (if isNodeDisabledViaComment node file then [] else fired node) a
  /\
  (forall b, In b (fired node) -> is_kind_branch b = true ->
     fired node = [b])
  /\
  (forall b, In b (fired node) -> is_kind_branch b = false ->
     kind node <> ImportDeclaration /\
     kind node <> ExportAssignment /\
     kind node <> ExportDeclaration /\
     forall b', In b' (fired node) -> is_kind_branch b' = false)
  /\
  (kind node <> ImportDeclaration ->
   kind node <> ExportAssignment ->
   kind node <> ExportDeclaration ->
   mayContainDynamicImports node = true ->
   truthy_obool (hasModifier node ExportKeyword) = true ->
   fired node = [DynamicImportScan; ExportModifier] /\
   forall x fw k,
     truthy_obool (hasModifier node DefaultKeyword) = false ->
     name node = Some x -> x <> "" ->
     dynamicImportsOf node = [fw] ->
     key_of (specifier fw) = Some k ->
     isNodeDisabledViaComment node file = false ->
     acc_exports (visit node a) = acc_exports a ++ [x] /\
     acc_imports (visit node a) !! k
     = Some (default [] (acc_imports a !! k) ++ what_names (what fw))).
Proof.
  split; [|split; [|split]].
  - unfold visitNode.
    destruct (isNodeDisabledViaComment node file); [done|].
    apply dispatch_fired.
  - unfold fired. intros b.
    destruct (kind node); try destruct (moduleSpecifier node);
      try destruct (mayContainDynamicImports node);
      try destruct (truthy_obool (hasModifier node ExportKeyword));
      simpl; intros Hin Hb; intuition (subst; try done).
  - unfold fired. intros b.
    destruct (kind node); try destruct (moduleSpecifier node);
      try destruct (mayContainDynamicImports node);
      try destruct (truthy_obool (hasModifier node ExportKeyword));
      simpl; intros Hin Hb;
      intuition (subst; try done).
  - intros Hk1 Hk2 Hk3 Hdyn Hexp. split.
    + unfold fired. rewrite Hdyn, Hexp. by destruct (kind node).
    + intros x fw k Hdef Hname Hx Hfw Hkey Hon.
      rewrite visitNode_enabled by done.
      assert (Hd : dispatch rootDir path file baseUrl paths node a
                   = visitOther rootDir path file baseUrl paths node a).
      { unfold dispatch. by destruct (kind node). }
      rewrite Hd. unfold visitOther, addDynamicImports.
      rewrite Hdyn, Hexp, Hdef, Hname, Hfw.
      apply truthy_string_ne in Hx. rewrite Hx. simpl.
      rewrite (addImport_resolved _ _ _ _ _ _ k Hkey). simpl.
      split; [reflexivity|apply lookup_insert_eq].
Qed.

(** The callback on a named re-export: with a non-empty module key the
    names are appended to [exports] and nothing to [exportLocations];
    without one neither sequence changes.  Every other statement leaves the
    number of exports without a location entry as it was. *)
Lemma visitNode_named_reexport_locations (node : Node) (a : Acc) :
  (forall ms ns,
     isNodeDisabledViaComment node file = false ->
     kind node = ExportDeclaration ->
     moduleSpecifier node = Some ms ->
     what (extractExportFromImport node ms) = Names ns ->
     (forall k,
        key_of (specifier (extractExportFromImport node ms)) = Some k ->
        k <> "" ->
        acc_exports (visit node a) = acc_exports a ++ ns /\
        acc_exportLocations (visit node a) = acc_exportLocations a /\
        unlocated (visit node a) = unlocated a + Z.of_nat (length ns))
     /\
     (key_of (specifier (extractExportFromImport node ms)) = None \/
      key_of (specifier (extractExportFromImport node ms)) = Some "" ->
      acc_exports (visit node a) = acc_exports a /\
      acc_exportLocations (visit node a) = acc_exportLocations a))
  /\
  ((kind node <> ExportDeclaration \/
    moduleSpecifier node = None \/
    exists ms, moduleSpecifier node = Some ms /\
               what (extractExportFromImport node ms) = Star) ->
   unlocated (visit node a) = unlocated a).
Proof.
  split.
  - intros ms ns Hon Hkind Hms Hnames.
    rewrite visitNode_enabled by done.
    unfold dispatch. rewrite Hkind, Hms. split.
    + intros k Hkey Hk.
      rewrite (addImport_resolved _ _ _ _ _ _ k Hkey).
      apply truthy_string_ne in Hk. rewrite Hk, Hnames. simpl.
      repeat split. unfold unlocated; simpl. rewrite length_app. lia.
    + intros [Hkey|Hkey].
      * by rewrite (addImport_unresolved _ _ _ _ _ _ Hkey).
      * by rewrite (addImport_resolved _ _ _ _ _ _ "" Hkey).
  - intros Hother. unfold visitNode.
    destruct (isNodeDisabledViaComment node file); [done|].
    unfold dispatch.
    destruct (kind node) eqn:Hkind;
      try apply visitOther_unlocated.
    + apply unlocated_same; apply addImport_exports.
    + apply addExport_unlocated.
    + destruct (moduleSpecifier node) as [ms|] eqn:Hms.
      * destruct Hother as [?|[?|(ms' & [= <-] & Hstar)]]; [done..|].
        pose proof (addImport_exports rootDir path baseUrl paths
                      (extractExportFromImport node ms) a) as [He Hl].
        destruct (addImport rootDir path baseUrl paths
                    (extractExportFromImport node ms) a) as [key a1].
        simpl in He, Hl. rewrite Hstar.
        destruct key as [k|]; [destruct (truthy_string k)|];
          rewrite ?addExport_unlocated; by apply unlocated_same.
      * apply addExports_unlocated.
Qed.

End MapperClaims.

(** ** The claims of the mapper on the small project *)

Lemma directive_suppresses_statement_witness :
  visitNode (H:=Demo.demoHost) "/proj" "/proj/a.ts" Demo.suppressed_file
            None None Demo.exported_function empty_acc = empty_acc /\
  visitNode (H:=Demo.demoHost) "/proj" "/proj/a.ts" Demo.near_miss_file
            None None Demo.exported_function empty_acc =
  visitNode (H:=Demo.demoHost) "/proj" "/proj/a.ts" Demo.plain_file
            None None Demo.exported_function empty_acc.
Proof.
  split.
  - apply (proj1 (directive_suppresses_statement (H:=Demo.demoHost)
                    "/proj" "/proj/a.ts" Demo.suppressed_file None None
                    Demo.exported_function empty_acc
                    {| cr_pos := 0; cr_end := 38 |} eq_refl)).
    reflexivity.
  - apply (proj2 (directive_suppresses_statement (H:=Demo.demoHost)
                    "/proj" "/proj/a.ts" Demo.near_miss_file None None
                    Demo.exported_function empty_acc
                    {| cr_pos := 0; cr_end := 39 |} eq_refl)).
    + vm_compute. discriminate.
    + reflexivity.
Defined.

(* ===================================================================== *)
(** * Further properties of the code *)
(* ===================================================================== *)

(** ** The two regular expressions of [extractFilename] *)

Module RegexFacts.
Import JsString JsStringFacts Regex Host Filename Shapes.

Lemma append_empty_l (a : string) : "" +:+ a = a.
Proof. reflexivity. Qed.

Lemma append_cons (x : ascii) (a b : string) :
  String x a +:+ b = String x (a +:+ b).
Proof. reflexivity. Qed.

Lemma append_assoc (a b c : string) : (a +:+ b) +:+ c = a +:+ b +:+ c.
Proof.
  induction a as [|x a IH]; [done|]. rewrite !append_cons. by rewrite IH.
Qed.

Lemma append_empty_r (a : string) : a +:+ "" = a.
Proof.
  induction a as [|x a IH]; [done|]. rewrite append_cons. by rewrite IH.
Qed.

Lemma length_append (a b : string) :
  String.length (a +:+ b) = (String.length a + String.length b)%nat.
Proof.
  induction a as [|x a IH]; [done|]. rewrite append_cons. simpl.
  by rewrite IH.
Qed.

Lemma has_dot_app (a b : string) :
  has_dot (a +:+ b) = has_dot a || has_dot b.
Proof.
  induction a as [|x a IH]; [done|]. rewrite append_cons. simpl.
  by rewrite IH, orb_assoc.
Qed.

Lemma has_dot_contains (s : string) : has_dot s = true <-> contains s ".".
Proof.
  split.
  - induction s as [|c s IH]; simpl; [done|].
    destruct (Ascii.eqb_spec c dot) as [->|Hc]; simpl.
    + intros _. by exists "", s.
    + intros Hs. destruct (IH Hs) as (pre & post & ->).
      by exists (String c pre), post.
  - intros (pre & post & ->). rewrite !has_dot_app. simpl.
    by rewrite orb_true_r.
Qed.

Lemma no_dot_contains (s : string) : ~ contains s "." -> has_dot s = false.
Proof.
  intros Hno. apply not_true_iff_false. by rewrite has_dot_contains.
Qed.

(** [[^.]*$] on [e]: it matches when no dot is left. *)
Lemma star_not_dot_end (e : string) :
  star_atom (AClass true [dot]) e (fun s1 => rmatch REnd s1 Some)
  = if has_dot e then None else Some "".
Proof.
  induction e as [|c e IH]; [done|].
  cbn [star_atom has_dot]. rewrite IH.
  unfold atom_matches, mem_ascii. cbn [existsb].
  destruct (Ascii.eqb c dot); simpl; [done|].
  by destruct (has_dot e).
Qed.

(** [\.[^.]*$] at the start of [t]. *)
Lemma ext_here_match (t : string) :
  rmatch (RSeq (RAtom (AChar dot)) (RSeq (RStar (AClass true [dot])) REnd))
         t Some
  = if ext_here t then Some "" else None.
Proof.
  destruct t as [|c e]; [done|].
  cbn [rmatch ext_here atom_matches].
  destruct (Ascii.eqb c dot); [|done].
  rewrite star_not_dot_end. by destruct (has_dot e).
Qed.

Lemma literal_match (w s : string) (k : string -> option string) :
  rmatch (literal w) s k
  = match drop_prefix w s with
    | Some s' => k s'
    | None => None
    end.
Proof.
  revert s. induction w as [|a w IH]; intros s; [done|].
  cbn [literal rmatch drop_prefix atom_matches].
  destruct s as [|b s]; [done|].
  destruct (Ascii.eqb b a); [apply IH|done].
Qed.

Lemma ext_here_has_dot (t : string) : ext_here t = true -> has_dot t = true.
Proof.
  destruct t as [|c e]; simpl; [done|].
  intros Ht. apply andb_true_iff in Ht as [-> _]. done.
Qed.

Lemma ext_here_sep (c : ascii) (t : string) :
  is_sep c = true -> ext_here (String c t) = false.
Proof.
  unfold is_sep, mem_ascii. simpl. intros Hc.
  destruct (Ascii.eqb_spec c dot) as [->|]; [done|done].
Qed.

Lemma rmatch_seq (r1 r2 : regex) (s : string) (k : string -> option string) :
  rmatch (RSeq r1 r2) s k = rmatch r1 s (fun s1 => rmatch r2 s1 k).
Proof. reflexivity. Qed.

Lemma rmatch_opt (r : regex) (s : string) (k : string -> option string) :
  rmatch (ROpt r) s k
  = match rmatch r s k with
    | Some rest => Some rest
    | None => k s
    end.
Proof. reflexivity. Qed.

(** [[\\/]index] at the start of [t]. *)
Lemma sep_index_match (t : string) (k : string -> option string) :
  rmatch (RSeq (RAtom (AClass false [backslash; slash])) (literal "index")) t k
  = match t with
    | String c t' =>
        if is_sep c then
          match drop_prefix "index" t' with
          | Some t'' => k t''
          | None => None
          end
        else None
    | EmptyString => None
    end.
Proof.
  rewrite rmatch_seq. destruct t as [|c t']; [done|].
  cbn [rmatch atom_matches xorb]. fold (is_sep c).
  destruct (is_sep c); [|done]. apply literal_match.
Qed.

(** [/([\\/]index)?\.[^.]*$/] at the start of [t]: the whole rest of [t]
    is matched, or nothing is. *)
Lemma index_ext_match (t : string) :
  match_here index_ext_re t
  = if index_ext_here t || ext_here t then Some "" else None.
Proof.
  unfold match_here, index_ext_re.
  rewrite (rmatch_seq (ROpt _)), rmatch_opt, sep_index_match.
  cbn beta. rewrite (ext_here_match t).
  destruct t as [|c t']; [done|].
  unfold index_ext_here.
  destruct (is_sep c) eqn:Hsep; cbn [andb orb]; [|reflexivity].
  rewrite (ext_here_sep c t' Hsep), orb_false_r.
  destruct (drop_prefix "index" t') as [t''|]; [|reflexivity].
  rewrite ext_here_match. by destruct (ext_here t'').
Qed.

End RegexFacts.

(** ** What [extractFilename] removes *)

Module FilenameFacts.
Import JsString JsStringFacts Regex Host Filename Shapes RegexFacts.

Lemma replace_cons (r : regex) (repl : string) (c : ascii) (s : string) :
  replace r repl (String c s)
  = match match_here r (String c s) with
    | Some rest => repl +:+ rest
    | None => String c (replace r repl s)
    end.
Proof. reflexivity. Qed.

Lemma test_cons (r : regex) (c : ascii) (s : string) :
  test r (String c s)
  = match match_here r (String c s) with
    | Some _ => true
    | None => test r s
    end.
Proof. reflexivity. Qed.

Lemma drop_prefix_has_dot (w t t'' : string) :
  drop_prefix w t = Some t'' -> has_dot t'' = true -> has_dot t = true.
Proof.
  revert t. induction w as [|a w IH]; intros t; simpl.
  - by intros [= ->].
  - destruct t as [|b t]; [done|].
    destruct (Ascii.eqb b a); [|done].
    intros Hd Ht. simpl. rewrite (IH _ Hd Ht). apply orb_true_r.
Qed.

Lemma index_ext_here_has_dot (t : string) :
  index_ext_here t = true -> has_dot t = true.
Proof.
  destruct t as [|c t']; [done|]. unfold index_ext_here.
  intros Ht. apply andb_true_iff in Ht as [_ Ht].
  destruct (drop_prefix "index" t') as [t''|] eqn:Hd; [|done].
  simpl. rewrite (drop_prefix_has_dot _ _ _ Hd (ext_here_has_dot _ Ht)).
  apply orb_true_r.
Qed.

Lemma no_match_without_dot (t : string) :
  has_dot t = false -> match_here index_ext_re t = None.
Proof.
  intros Hno. rewrite index_ext_match.
  destruct (index_ext_here t) eqn:Hi.
  - apply index_ext_here_has_dot in Hi. congruence.
  - destruct (ext_here t) eqn:He; [|done].
    apply ext_here_has_dot in He. congruence.
Qed.

(** Without a dot, nothing is replaced. *)
Lemma replace_without_dot (s : string) :
  has_dot s = false -> replace index_ext_re "" s = s.
Proof.
  induction s as [|c s IH]; intros Hno.
  - reflexivity.
  - rewrite replace_cons, (no_match_without_dot _ Hno).
    simpl in Hno. apply orb_false_iff in Hno as [_ Hno]. by rewrite IH.
Qed.

(** After the word [w], what is left of [front.ext] is the final extension
    exactly when [front] is [w]. *)
Lemma drop_prefix_ext (w front ext : string) :
  has_dot w = false -> has_dot ext = false ->
  match drop_prefix w (front +:+ String dot ext) with
  | Some t => ext_here t
  | None => false
  end = String.eqb front w.
Proof.
  intros Hw Hext. revert front.
  induction w as [|a w IH]; intros front.
  - destruct front as [|c front];
      rewrite ?append_empty_l, ?append_cons;
      cbn [drop_prefix ext_here String.eqb].
    + by rewrite Ascii.eqb_refl, Hext.
    + rewrite has_dot_app. cbn [has_dot].
      by rewrite Ascii.eqb_refl, orb_true_r, andb_false_r.
  - cbn [has_dot] in Hw. apply orb_false_iff in Hw as [Ha Hw].
    destruct front as [|c front];
      rewrite ?append_empty_l, ?append_cons;
      cbn [drop_prefix String.eqb].
    + rewrite Ascii.eqb_sym in Ha. by rewrite Ha.
    + destruct (Ascii.eqb c a); [by apply IH|done].
Qed.

Lemma replace_ext (front ext : string) :
  has_dot ext = false ->
  replace index_ext_re "" (front +:+ String dot ext) = strip_index front.
Proof.
  intros Hext. induction front as [|c front IH].
  - change ("" +:+ String dot ext) with (String dot ext).
    rewrite replace_cons, index_ext_match.
    assert (ext_here (String dot ext) = true) as ->.
    { cbn [ext_here]. by rewrite Ascii.eqb_refl, Hext. }
    by rewrite orb_true_r.
  - rewrite append_cons, replace_cons, index_ext_match.
    assert (ext_here (String c (front +:+ String dot ext)) = false) as ->.
    { cbn [ext_here]. rewrite has_dot_app. cbn [has_dot].
      by rewrite Ascii.eqb_refl, orb_true_r, andb_false_r. }
    rewrite orb_false_r. unfold index_ext_here.
    rewrite (drop_prefix_ext "index" front ext eq_refl Hext).
    cbn [strip_index].
    destruct (is_sep c && String.eqb front "index"); [done|].
    by rewrite IH.
Qed.

(** The replacement cuts the path at some point: what it returns is the
    front of the path. *)
Lemma replace_front (s : string) :
  exists rest, s = replace index_ext_re "" s +:+ rest.
Proof.
  induction s as [|c s IH].
  - by exists "".
  - rewrite replace_cons, index_ext_match.
    destruct (index_ext_here (String c s) || ext_here (String c s)).
    + by exists (String c s).
    + destruct IH as [rest IH]. exists rest.
      rewrite append_cons. by rewrite <- IH.
Qed.

(** [/\.d$/] at the start of [t]. *)
Lemma dot_d_match (t : string) :
  match_here dot_d_re t = if String.eqb t ".d" then Some "" else None.
Proof.
  unfold match_here, dot_d_re.
  destruct t as [|c1 [|c2 [|c3 t]]];
    cbn [rmatch atom_matches String.eqb]; unfold dot;
    repeat match goal with
           | |- context [Ascii.eqb ?a ?b] => destruct (Ascii.eqb a b)
           end;
    reflexivity.
Qed.

Lemma test_dot_d (n : string) :
  test dot_d_re n = true <-> ends_with n ".d".
Proof.
  split.
  - induction n as [|c n IH].
    + discriminate.
    + rewrite test_cons, dot_d_match.
      destruct (String.eqb_spec (String c n) ".d") as [->|_].
      * intros _. by exists "".
      * intros Hn. destruct (IH Hn) as [front ->]. by exists (String c front).
  - intros [front ->]. induction front as [|c front IH].
    + reflexivity.
    + rewrite append_cons, test_cons, dot_d_match.
      by destruct (String.eqb _ ".d").
Qed.

Lemma substring_front (front rest : string) :
  String.substring 0 (String.length front) (front +:+ rest) = front.
Proof.
  induction front as [|c front IH]; simpl.
  - by destruct rest.
  - by rewrite IH.
Qed.

Lemma substr_without_dot_d (front : string) :
  substr (front +:+ ".d") 0 (jslength (front +:+ ".d") - 2) = front.
Proof.
  unfold substr, clamp, jslength. rewrite length_append. simpl String.length.
  replace (Z.to_nat (Z.min (Z.max 0 0) _)) with 0%nat by lia.
  replace (Z.to_nat _) with (String.length front) by lia.
  apply substring_front.
Qed.

Lemma strip_index_same (front : string) :
  (forall c, is_sep c = true -> ~ ends_with front (String c "index")) ->
  strip_index front = front.
Proof.
  induction front as [|c front IH]; intros Hno; [done|].
  cbn [strip_index].
  destruct (is_sep c) eqn:Hc; cbn [andb].
  - destruct (String.eqb_spec front "index") as [->|_].
    + exfalso. apply (Hno c Hc). by exists "".
    + rewrite IH; [done|]. intros c' Hc' [q ->].
      apply (Hno c' Hc'). by exists (String c q).
  - rewrite IH; [done|]. intros c' Hc' [q ->].
    apply (Hno c' Hc'). by exists (String c q).
Qed.

Lemma is_sep_cases (c : ascii) :
  is_sep c = true <-> c = backslash \/ c = slash.
Proof.
  unfold is_sep, mem_ascii. simpl. rewrite !orb_true_iff, !Ascii.eqb_eq.
  intuition discriminate.
Qed.

Lemma strip_index_segment (dir : string) (c : ascii) :
  is_sep c = true -> strip_index (dir +:+ String c "index") = dir.
Proof.
  intros Hc. induction dir as [|x dir IH].
  - rewrite append_empty_l. cbn [strip_index]. by rewrite Hc.
  - rewrite append_cons. cbn [strip_index].
    assert (String.eqb (dir +:+ String c "index") "index" = false) as ->.
    { apply String.eqb_neq. intros Heq.
      apply (f_equal String.length) in Heq.
      rewrite length_append in Heq. simpl in Heq. lia. }
    by rewrite andb_false_r, IH.
Qed.

Lemma strip_index_dot_d (stem : string) :
  strip_index (stem +:+ ".d") = stem +:+ ".d".
Proof.
  induction stem as [|x stem IH]; [reflexivity|].
  rewrite append_cons. cbn [strip_index].
  assert (String.eqb (stem +:+ ".d") "index" = false) as ->.
  { apply String.eqb_neq. intros Heq.
    apply (f_equal has_dot) in Heq. rewrite has_dot_app in Heq.
    simpl in Heq. by rewrite orb_true_r in Heq. }
  by rewrite andb_false_r, IH.
Qed.

Section Normaliser.
Context `{Collaborators}.

(** The name of a path with a final extension. *)
Lemma extractFilename_ext (rootDir path front ext : string) :
  relative rootDir path = front +:+ String dot ext ->
  has_dot ext = false ->
  extractFilename rootDir path
  = if test dot_d_re (strip_index front)
    then substr (strip_index front) 0 (jslength (strip_index front) - 2)
    else strip_index front.
Proof.
  intros Hrel Hext. unfold extractFilename.
  by rewrite Hrel, (replace_ext _ _ Hext).
Qed.

Lemma no_dot_d_test (n : string) :
  ~ ends_with n ".d" -> test dot_d_re n = false.
Proof.
  intros Hn. apply not_true_iff_false. by rewrite test_dot_d.
Qed.

End Normaliser.

End FilenameFacts.

(** ** The comment check and the modifier test *)

Module CommentFacts.
Import JsString JsStringFacts Ts Types Host Comment Mapper Shapes.
Import RegexFacts FilenameFacts MapperFacts.

Lemma substring_from_start (s : string) (m : nat) :
  exists post, s = String.substring 0 m s +:+ post.
Proof.
  revert m. induction s as [|c s IH]; intros [|m].
  - by exists "".
  - by exists "".
  - by exists (String c s).
  - destruct (IH m) as [post Hpost]. exists post.
    change (String.substring 0 (S m) (String c s))
      with (String c (String.substring 0 m s)).
    rewrite append_cons. by rewrite <- Hpost.
Qed.

(** What [String.substring] returns occurs in the string. *)
Lemma substring_inside (s : string) (n m : nat) :
  contains s (String.substring n m s).
Proof.
  revert n m. induction s as [|c s IH]; intros n m.
  - exists "", "". by destruct n, m.
  - destruct n as [|n].
    + destruct (substring_from_start (String c s) m) as [post Hpost].
      by exists "", post.
    + destruct (IH n m) as (pre & post & Hs).
      change (String.substring (S n) m (String c s))
        with (String.substring n m s).
      exists (String c pre), post. by rewrite append_cons, <- Hs.
Qed.

Lemma js_substring_inside (s : string) (a b : Z) :
  contains s (substring s a b).
Proof. apply substring_inside. Qed.

Lemma substring_skip (before rest : string) (k : nat) :
  String.substring (String.length before) k (before +:+ rest)
  = String.substring 0 k rest.
Proof.
  induction before as [|c before IH]; [done|].
  rewrite append_cons. exact IH.
Qed.

(** The text between the two ends of an occurrence is the occurrence. *)
Lemma js_substring_occurrence (before m after : string) :
  substring (before +:+ m +:+ after)
            (jslength before) (jslength before + jslength m) = m.
Proof.
  unfold substring, clamp, jslength. rewrite !length_append.
  replace (Z.to_nat (Z.min (Z.max (Z.of_nat (String.length before)) 0) _))
    with (String.length before) by lia.
  replace (Z.to_nat (Z.min (Z.max (Z.of_nat (String.length before)
                                   + Z.of_nat (String.length m)) 0) _))
    with (String.length before + String.length m)%nat by lia.
  replace (Nat.min _ _) with (String.length before) by lia.
  replace (Nat.max _ _ - _)%nat with (String.length m) by lia.
  rewrite substring_skip. apply substring_front.
Qed.

Lemma filter_length_positive {A : Type} (f : A -> bool) (l : list A) :
  (0 <? Z.of_nat (length (List.filter f l))) = true <->
  exists x, In x l /\ f x = true.
Proof.
  rewrite Z.ltb_lt. split.
  - destruct (List.filter f l) as [|x l'] eqn:Hf; simpl; [lia|].
    intros _. exists x. apply filter_In. rewrite Hf. by left.
  - intros (x & Hx & Hfx).
    assert (Hin : In x (List.filter f l)) by (apply filter_In; auto).
    destruct (List.filter f l); simpl in *; [done|lia].
Qed.

Lemma hasModifier_truthy (node : Node) (k : SyntaxKind) :
  truthy_obool (hasModifier node k) = true <->
  exists ms m, modifiers node = Some ms /\ In m ms /\ mod_kind m = k.
Proof.
  unfold hasModifier. destruct (modifiers node) as [ms|]; simpl.
  - destruct (0 <? _) eqn:Hpos.
    + split; [|done]. intros _.
      apply filter_length_positive in Hpos as (m & Hin & Hm).
      apply bool_decide_eq_true in Hm. by exists ms, m.
    + split; [done|]. intros (ms' & m & [= <-] & Hin & Hm).
      apply not_true_iff_false in Hpos. exfalso. apply Hpos.
      apply filter_length_positive. exists m. split; [done|].
      by apply bool_decide_eq_true.
  - split; [done|]. by intros (ms & m & ? & _).
Qed.

End CommentFacts.

(** ** What the callback keeps *)

Module AccFacts.
Import JsString Ts Types Host Comment Mapper Branches Shapes MapperFacts.

Lemma extends_refl (a : Acc) : extends a a.
Proof.
  repeat split.
  - exists []. by rewrite app_nil_r.
  - exists []. by rewrite app_nil_r.
  - intros k names Hk. exists []. by rewrite app_nil_r.
Qed.

Lemma extends_trans (a b c : Acc) : extends a b -> extends b c -> extends a c.
Proof.
  intros ([e1 He1] & [l1 Hl1] & Hi1) ([e2 He2] & [l2 Hl2] & Hi2).
  repeat split.
  - exists (e1 ++ e2). by rewrite He2, He1, app_assoc.
  - exists (l1 ++ l2). by rewrite Hl2, Hl1, app_assoc.
  - intros k names Hk.
    destruct (Hi1 _ _ Hk) as [m1 Hm1]. destruct (Hi2 _ _ Hm1) as [m2 Hm2].
    exists (m1 ++ m2). by rewrite Hm2, app_assoc.
Qed.

Lemma located_empty : located empty_acc.
Proof. unfold located. simpl. constructor. Qed.

Section Steps.
Context `{Collaborators}.
Variables (rootDir path : string) (file : SourceFile).
Variables (baseUrl : option string) (paths : option (gmap string (list string))).

Local Abbreviation addImport' := (addImport rootDir path baseUrl paths).
Local Abbreviation dispatch' := (dispatch rootDir path file baseUrl paths).
Local Abbreviation visitNode' := (visitNode rootDir path file baseUrl paths).
Local Abbreviation visitOther' := (visitOther rootDir path file baseUrl paths).
Local Abbreviation visitAll' := (visitAll rootDir path file baseUrl paths).

Lemma addExport_extends (e : string) (node : Node) (a : Acc) :
  extends a (addExport file e node a).
Proof.
  repeat split; simpl; eauto.
  intros k names Hk. exists []. by rewrite app_nil_r.
Qed.

Lemma addImport_extends (fw : FromWhat) (a : Acc) :
  extends a (snd (addImport' fw a)).
Proof.
  unfold addImport, addImportCore.
  destruct (moduleKey _ _ _ _ _ _) as [key|]; simpl.
  - repeat split; simpl.
    + exists []. by rewrite app_nil_r.
    + exists []. by rewrite app_nil_r.
    + intros k names Hk. destruct (decide (key = k)) as [->|Hne].
      * rewrite lookup_insert_eq, Hk. simpl. eauto.
      * rewrite lookup_insert_ne by done. exists []. by rewrite app_nil_r.
  - destruct a. apply extends_refl.
Qed.

Lemma concat_extends (ns : list string) (a : Acc) :
  extends a {| acc_imports := acc_imports a;
               acc_exports := acc_exports a ++ ns;
               acc_exportLocations := acc_exportLocations a |}.
Proof.
  repeat split; simpl; eauto.
  - exists []. by rewrite app_nil_r.
  - intros k names Hk. exists []. by rewrite app_nil_r.
Qed.

Lemma addExports_extends (names : list string) (node : Node) (a : Acc) :
  extends a (fold_left (fun a' e => addExport file e node a') names a).
Proof.
  revert a. induction names as [|e names IH]; intros a; simpl.
  - apply extends_refl.
  - eapply extends_trans; [apply addExport_extends|apply IH].
Qed.

Lemma addDynamicImports_extends (node : Node) (a : Acc) :
  extends a (addDynamicImports node addImport' a).
Proof.
  unfold addDynamicImports. revert a.
  induction (dynamicImportsOf node) as [|fw fws IH]; intros a; simpl.
  - apply extends_refl.
  - eapply extends_trans; [apply addImport_extends|apply IH].
Qed.

Lemma visitOther_extends (node : Node) (a : Acc) :
  extends a (visitOther' node a).
Proof.
  unfold visitOther.
  set (a1 := if mayContainDynamicImports node
             then addDynamicImports node addImport' a else a).
  assert (Ha1 : extends a a1).
  { subst a1. destruct (mayContainDynamicImports node);
      [apply addDynamicImports_extends|apply extends_refl]. }
  destruct (truthy_obool (hasModifier node ExportKeyword)); [|done].
  destruct (truthy_obool (hasModifier node DefaultKeyword)).
  - eapply extends_trans; [exact Ha1|apply addExport_extends].
  - destruct (truthy_string _); [|done].
    eapply extends_trans; [exact Ha1|apply addExport_extends].
Qed.

Lemma dispatch_extends (node : Node) (a : Acc) :
  extends a (dispatch' node a).
Proof.
  unfold dispatch.
  destruct (kind node); try apply visitOther_extends.
  - apply addImport_extends.
  - apply addExport_extends.
  - destruct (moduleSpecifier node) as [ms|]; [|apply addExports_extends].
    pose proof (addImport_extends (extractExportFromImport node ms) a) as Hi.
    destruct (addImport' (extractExportFromImport node ms) a) as [key a1].
    simpl in Hi.
    destruct key as [k|]; [|done].
    destruct (truthy_string k); [|done].
    destruct (what (extractExportFromImport node ms)).
    + eapply extends_trans; [exact Hi|apply addExport_extends].
    + eapply extends_trans; [exact Hi|apply concat_extends].
Qed.

Lemma visitNode_extends (node : Node) (a : Acc) :
  extends a (visitNode' node a).
Proof.
  unfold visitNode. destruct (isNodeDisabledViaComment node file);
    [apply extends_refl|apply dispatch_extends].
Qed.

Lemma visitAll_extends (nodes : list Node) (a : Acc) :
  extends a (visitAll' nodes a).
Proof.
  unfold visitAll. revert a.
  induction nodes as [|node nodes IH]; intros a; simpl.
  - apply extends_refl.
  - eapply extends_trans; [apply visitNode_extends|apply IH].
Qed.

Lemma visitAll_app (l1 l2 : list Node) (a : Acc) :
  visitAll' (l1 ++ l2) a = visitAll' l2 (visitAll' l1 a).
Proof. unfold visitAll. apply fold_left_app. Qed.

(** [located] *)

Lemma located_same (a a' : Acc) :
  acc_exports a' = acc_exports a ->
  acc_exportLocations a' = acc_exportLocations a ->
  located a -> located a'.
Proof. unfold located. by intros -> ->. Qed.

Lemma addExport_located (e : string) (node : Node) (a : Acc) :
  located a -> located (addExport file e node a).
Proof.
  unfold located. simpl. intros Ha.
  rewrite map_app. simpl. by apply sublist_app.
Qed.

Lemma addExports_located (names : list string) (node : Node) (a : Acc) :
  located a ->
  located (fold_left (fun a' e => addExport file e node a') names a).
Proof.
  revert a. induction names as [|e names IH]; intros a Ha; simpl; [done|].
  apply IH. by apply addExport_located.
Qed.

Lemma visitOther_located (node : Node) (a : Acc) :
  located a -> located (visitOther' node a).
Proof.
  intros Ha. unfold visitOther.
  set (a1 := if mayContainDynamicImports node
             then addDynamicImports node addImport' a else a).
  assert (Ha1 : located a1).
  { subst a1. destruct (mayContainDynamicImports node); [|done].
    destruct (addDynamicImports_exports rootDir path baseUrl paths node a).
    by eapply located_same. }
  destruct (truthy_obool (hasModifier node ExportKeyword)); [|done].
  destruct (truthy_obool (hasModifier node DefaultKeyword)).
  - by apply addExport_located.
  - destruct (truthy_string _); [|done]. by apply addExport_located.
Qed.

Lemma dispatch_located (node : Node) (a : Acc) :
  located a -> located (dispatch' node a).
Proof.
  intros Ha. unfold dispatch.
  destruct (kind node); try (by apply visitOther_located).
  - destruct (addImport_exports rootDir path baseUrl paths
                (extractImport node) a).
    by eapply located_same.
  - by apply addExport_located.
  - destruct (moduleSpecifier node) as [ms|]; [|by apply addExports_located].
    pose proof (addImport_exports rootDir path baseUrl paths
                  (extractExportFromImport node ms) a) as [He Hl].
    destruct (addImport' (extractExportFromImport node ms) a) as [key a1].
    simpl in He, Hl.
    assert (Ha1 : located a1) by (by eapply located_same).
    destruct key as [k|]; [|done].
    destruct (truthy_string k); [|done].
    destruct (what (extractExportFromImport node ms)).
    + by apply addExport_located.
    + unfold located in *. simpl. by apply sublist_inserts_r.
Qed.

Lemma visitAll_located (nodes : list Node) (a : Acc) :
  located a -> located (visitAll' nodes a).
Proof.
  unfold visitAll. revert a.
  induction nodes as [|node nodes IH]; intros a Ha; simpl; [done|].
  apply IH. unfold visitNode.
  destruct (isNodeDisabledViaComment node file); [done|].
  by apply dispatch_located.
Qed.

(** The closed form of the loop over the names of a local export. *)
Lemma addExports_closed (names : list string) (node : Node) (a : Acc) :
  fold_left (fun a' e => addExport file e node a') names a
  = {| acc_imports := acc_imports a;
       acc_exports := acc_exports a ++ names;
       acc_exportLocations :=
         acc_exportLocations a ++ List.map (location_of node) names |}.
Proof.
  revert a. induction names as [|e names IH]; intros a; simpl.
  - destruct a; simpl. by rewrite !app_nil_r.
  - rewrite IH. simpl. by rewrite <- !app_assoc.
Qed.

Lemma dispatch_other (node : Node) (a : Acc) :
  kind node <> ImportDeclaration ->
  kind node <> ExportAssignment ->
  kind node <> ExportDeclaration ->
  dispatch' node a = visitOther' node a.
Proof. unfold dispatch. by destruct (kind node). Qed.

Lemma mapFile_visitAll :
  mapFile rootDir path file baseUrl paths
  = let a := visitAll' (children file) empty_acc in
    {| Types.path := Filename.extractFilename rootDir path;
       fullPath := path;
       imports := acc_imports a;
       exports := acc_exports a;
       exportLocations := acc_exportLocations a |}.
Proof. reflexivity. Qed.

End Steps.

(** The callback looks at the file for its text only. *)
Lemma visitAll_text `{Collaborators} (rootDir path : string)
    (file file' : SourceFile) (baseUrl : option string)
    (paths : option (gmap string (list string)))
    (nodes : list Node) (a : Acc) :
  fullText file = fullText file' ->
  visitAll rootDir path file baseUrl paths nodes a
  = visitAll rootDir path file' baseUrl paths nodes a.
Proof.
  intros Htext. unfold visitAll. revert a.
  induction nodes as [|node nodes IH]; intros a; simpl; [done|].
  rewrite IH. f_equal. unfold visitNode, isNodeDisabledViaComment.
  rewrite Htext. reflexivity.
Qed.

End AccFacts.

(* ===================================================================== *)
(** * Further properties, stated *)
(* ===================================================================== *)

Import Shapes RegexFacts FilenameFacts CommentFacts AccFacts Entry.

Lemma ends_with_contains (s suffix : string) :
  ends_with s suffix -> contains s suffix.
Proof. intros [front ->]. exists front, "". by rewrite append_empty_r. Qed.

(** A concrete text does not occur in a concrete string. *)
Ltac no_occurrence :=
  let Hc := fresh in
  intros Hc; try apply ends_with_contains in Hc;
  apply indexOf_found in Hc; vm_compute in Hc; discriminate.

(** ** [extractFilename] *)

(** X1: a relative path without a dot has no extension to remove and is
    returned as it is. *)
Theorem extractFilename_without_dot `{Collaborators} (rootDir path : string) :
  ~ contains (relative rootDir path) "." ->
  extractFilename rootDir path = relative rootDir path.
Proof.
  intros Hno. apply no_dot_contains in Hno as Hdot.
  unfold extractFilename. rewrite (replace_without_dot _ Hdot).
  rewrite no_dot_d_test; [done|].
  intros Hd. apply Hno. apply ends_with_contains in Hd as (pre & post & ->).
  by exists pre, ("d" +:+ post).
Qed.

Lemma extractFilename_without_dot_witness :
  extractFilename (H:=Demo.demoHost) "/proj" "/proj/bin/run" = "bin/run".
Proof.
  apply (extractFilename_without_dot (H:=Demo.demoHost) "/proj" "/proj/bin/run").
  no_occurrence.
Defined.

(** X2: of a relative path [stem.ext], where [ext] has no dot and [stem]
    ends neither in [/index], [\index] nor [.d], the name is [stem]: the
    final extension is removed and nothing else. *)
Theorem extractFilename_drops_extension `{Collaborators}
    (rootDir path stem ext : string) :
  relative rootDir path = stem +:+ "." +:+ ext ->
  ~ contains ext "." ->
  ~ ends_with stem "/index" ->
  ~ ends_with stem (String backslash "index") ->
  ~ ends_with stem ".d" ->
  extractFilename rootDir path = stem.
Proof.
  intros Hrel Hext Hslash Hback Hd.
  rewrite (extractFilename_ext rootDir path stem ext Hrel
             (no_dot_contains _ Hext)).
  rewrite strip_index_same.
  - by rewrite no_dot_d_test.
  - intros c Hc. apply is_sep_cases in Hc as [->| ->]; done.
Qed.

Lemma extractFilename_drops_extension_witness :
  extractFilename (H:=Demo.demoHost) "/proj" "/proj/src/a.b/util.test.tsx"
  = "src/a.b/util.test".
Proof.
  apply (extractFilename_drops_extension (H:=Demo.demoHost)
           "/proj" "/proj/src/a.b/util.test.tsx" "src/a.b/util.test" "tsx");
    [reflexivity|no_occurrence..].
Defined.

(** X3: of a relative path [dir/index.ext] (or [dir\index.ext]), where
    [ext] has no dot and [dir] does not end in [.d], the name is [dir]:
    the [index] segment goes with the extension. *)
Theorem extractFilename_drops_index `{Collaborators}
    (rootDir path dir ext : string) (sep : ascii) :
  relative rootDir path = dir +:+ String sep ("index." +:+ ext) ->
  sep = slash \/ sep = backslash ->
  ~ contains ext "." ->
  ~ ends_with dir ".d" ->
  extractFilename rootDir path = dir.
Proof.
  intros Hrel Hsep Hext Hd.
  assert (Hshape : relative rootDir path
                   = (dir +:+ String sep "index") +:+ String dot ext).
  { rewrite Hrel, append_assoc. reflexivity. }
  rewrite (extractFilename_ext rootDir path _ ext Hshape
             (no_dot_contains _ Hext)).
  rewrite strip_index_segment by (apply is_sep_cases; tauto).
  by rewrite no_dot_d_test.
Qed.

Lemma extractFilename_drops_index_witness :
  extractFilename (H:=Demo.demoHost) "/proj" "/proj/src/index/index.ts"
  = "src/index".
Proof.
  apply (extractFilename_drops_index (H:=Demo.demoHost)
           "/proj" "/proj/src/index/index.ts" "src/index" "ts" slash);
    [reflexivity|by left|no_occurrence..].
Defined.

(** X4: of a relative path [stem.d.ext], where [ext] has no dot, the name
    is [stem], whatever [stem] is: after the [.d] part nothing more is
    removed, so an [/index] segment before it stays. *)
Theorem extractFilename_declaration_stem `{Collaborators}
    (rootDir path stem ext : string) :
  relative rootDir path = stem +:+ ".d." +:+ ext ->
  ~ contains ext "." ->
  extractFilename rootDir path = stem.
Proof.
  intros Hrel Hext.
  assert (Hshape : relative rootDir path = (stem +:+ ".d") +:+ String dot ext).
  { rewrite Hrel, append_assoc. reflexivity. }
  rewrite (extractFilename_ext rootDir path _ ext Hshape
             (no_dot_contains _ Hext)).
  rewrite strip_index_dot_d.
  assert (test dot_d_re (stem +:+ ".d") = true) as ->.
  { apply test_dot_d. by exists stem. }
  apply substr_without_dot_d.
Qed.

Lemma extractFilename_declaration_stem_witness :
  extractFilename (H:=Demo.demoHost) "/proj" "/proj/lib/index.d.ts"
  = "lib/index".
Proof.
  apply (extractFilename_declaration_stem (H:=Demo.demoHost)
           "/proj" "/proj/lib/index.d.ts" "lib/index" "ts");
    [reflexivity|no_occurrence].
Defined.

(** X5: the name is always the front of the relative path: characters are
    only removed at its end, never changed or added. *)
Theorem extractFilename_is_front `{Collaborators} (rootDir path : string) :
  exists rest,
    relative rootDir path = extractFilename rootDir path +:+ rest.
Proof.
  unfold extractFilename.
  destruct (replace_front (relative rootDir path)) as [rest Hrest].
  destruct (test dot_d_re _) eqn:Hd.
  - apply test_dot_d in Hd as [front Hfront].
    rewrite Hfront, substr_without_dot_d.
    exists (".d" +:+ rest). rewrite Hrest at 1. by rewrite Hfront, append_assoc.
  - by exists rest.
Qed.

(** X6: an implementation file [stem.ext] and the declaration file
    [stem.d.ext'] get the same name, when [stem] ends neither in [/index],
    [\index] nor [.d]. *)
Theorem extractFilename_declaration_collides `{Collaborators}
    (rootDir p1 p2 stem ext1 ext2 : string) :
  relative rootDir p1 = stem +:+ "." +:+ ext1 ->
  relative rootDir p2 = stem +:+ ".d." +:+ ext2 ->
  ~ contains ext1 "." -> ~ contains ext2 "." ->
  ~ ends_with stem "/index" ->
  ~ ends_with stem (String backslash "index") ->
  ~ ends_with stem ".d" ->
  extractFilename rootDir p1 = extractFilename rootDir p2.
Proof.
  intros H1 H2 He1 He2 Hslash Hback Hd.
  rewrite (extractFilename_ext rootDir p1 stem ext1 H1 (no_dot_contains _ He1)).
  assert (Hshape : relative rootDir p2 = (stem +:+ ".d") +:+ String dot ext2).
  { rewrite H2, append_assoc. reflexivity. }
  rewrite (extractFilename_ext rootDir p2 _ ext2 Hshape (no_dot_contains _ He2)).
  rewrite strip_index_dot_d, strip_index_same.
  - rewrite no_dot_d_test by done.
    assert (test dot_d_re (stem +:+ ".d") = true) as ->.
    { apply test_dot_d. by exists stem. }
    by rewrite substr_without_dot_d.
  - intros c Hc. apply is_sep_cases in Hc as [->| ->]; done.
Qed.

Lemma extractFilename_declaration_collides_witness :
  extractFilename (H:=Demo.demoHost) "/proj" "/proj/src/api.ts"
  = extractFilename (H:=Demo.demoHost) "/proj" "/proj/src/api.d.ts".
Proof.
  apply (extractFilename_declaration_collides (H:=Demo.demoHost)
           "/proj" "/proj/src/api.ts" "/proj/src/api.d.ts" "src/api" "ts" "ts");
    [reflexivity|reflexivity|no_occurrence..].
Defined.

(** ** [isNodeDisabledViaComment] and [hasModifier] *)

(** X7: in a file whose text does not contain the directive, no statement
    is disabled, whatever comment ranges the compiler reports. *)
Theorem no_directive_text_no_suppression `{Collaborators}
    (file : SourceFile) (node : Node) :
  ~ contains (fullText file) directive ->
  isNodeDisabledViaComment node file = false.
Proof.
  intros Hno. apply not_true_iff_false.
  rewrite isNodeDisabledViaComment_true. intros (r & _ & Htext).
  apply Hno. rewrite <- Htext. apply js_substring_inside.
Qed.

Lemma no_directive_text_no_suppression_witness :
  isNodeDisabledViaComment (H:=Demo.demoHost)
    Demo.exported_function Demo.plain_file = false.
Proof.
  apply (no_directive_text_no_suppression (H:=Demo.demoHost)).
  no_occurrence.
Defined.

(** X8: a statement is disabled when the last of its leading comment
    ranges spans an occurrence of the directive in the text of the file,
    wherever in the file that is. *)
Theorem directive_occurrence_suppresses `{Collaborators}
    (file : SourceFile) (node : Node) (before after : string)
    (commentRange : CommentRange) :
  fullText file = before +:+ directive +:+ after ->
  last (getLeadingCommentRanges (fullText file) (fullStart node))
  = Some commentRange ->
  cr_pos commentRange = jslength before ->
  cr_end commentRange = jslength before + jslength directive ->
  isNodeDisabledViaComment node file = true.
Proof.
  intros Htext Hlast Hpos Hend.
  apply isNodeDisabledViaComment_true. exists commentRange.
  split; [done|].
  rewrite Hpos, Hend, Htext. apply js_substring_occurrence.
Qed.

Lemma directive_occurrence_suppresses_witness :
  isNodeDisabledViaComment (H:=Demo.demoHost)
    Demo.exported_function Demo.suppressed_file = true.
Proof.
  apply (directive_occurrence_suppresses (H:=Demo.demoHost)
           Demo.suppressed_file Demo.exported_function ""
           (String Demo.newline "export function f() {}")
           {| cr_pos := 0; cr_end := 38 |});
    reflexivity.
Defined.

(** X9: [hasModifier] is truthy exactly when the node has a modifier array
    and one of its modifiers is of the kind asked for; a node without the
    array and a node with an array without such a modifier are both
    falsy. *)
Theorem hasModifier_truthy_iff (node : Node) (k : SyntaxKind) :
  truthy_obool (hasModifier node k) = true <->
  exists ms m, modifiers node = Some ms /\ In m ms /\ mod_kind m = k.
Proof. apply hasModifier_truthy. Qed.

Lemma hasModifier_truthy_iff_witness :
  truthy_obool (hasModifier Demo.exported_function ExportKeyword) = true /\
  truthy_obool (hasModifier Demo.exported_function DefaultKeyword) = false /\
  truthy_obool (hasModifier Demo.named_reexport ExportKeyword) = false.
Proof.
  split; [|split; reflexivity].
  apply (proj2 (hasModifier_truthy_iff Demo.exported_function ExportKeyword)).
  exists [{| mod_kind := ExportKeyword |}], {| mod_kind := ExportKeyword |}.
  repeat split. by left.
Defined.

(** ** [mapFile] *)

Section MapperExtras.
Context `{Collaborators}.
Variables (rootDir path : string).
Variables (baseUrl : option string) (paths : option (gmap string (list string))).

(** X10: statements further down the file only add to what the statements
    before them gave: the exports and the export locations of the longer
    file continue those of the shorter one, entry for entry. *)
Theorem mapFile_later_statements_extend
    (text : string) (nodes more_nodes : list Node) :
  let short :=
    mapFile rootDir path {| fullText := text; children := nodes |}
            baseUrl paths in
  let long :=
    mapFile rootDir path
            {| fullText := text; children := nodes ++ more_nodes |}
            baseUrl paths in
  (exists more, exports long = exports short ++ more) /\
  (exists more, exportLocations long = exportLocations short ++ more).
Proof.
  intros short long. subst short long.
  rewrite !mapFile_visitAll. cbn [children].
  rewrite visitAll_app.
  rewrite (visitAll_text rootDir path
             {| fullText := text; children := nodes ++ more_nodes |}
             {| fullText := text; children := nodes |} baseUrl paths nodes)
    by reflexivity.
  destruct (visitAll_extends rootDir path
              {| fullText := text; children := nodes ++ more_nodes |}
              baseUrl paths more_nodes
              (visitAll rootDir path {| fullText := text; children := nodes |}
                        baseUrl paths nodes empty_acc))
    as (He & Hl & _).
  split; [exact He|exact Hl].
Qed.

(** X21: no statement removes or shortens an entry of [imports]: every
    module key the shorter file has is a key of the longer file, and the
    names under it continue the names it had. *)
Theorem mapFile_imports_only_grow
    (text : string) (nodes more_nodes : list Node)
    (k : string) (names : list string) :
  imports (mapFile rootDir path {| fullText := text; children := nodes |}
                   baseUrl paths) !! k = Some names ->
  exists more,
    imports (mapFile rootDir path
                     {| fullText := text; children := nodes ++ more_nodes |}
                     baseUrl paths) !! k
    = Some (names ++ more).
Proof.
  rewrite !mapFile_visitAll. cbn [children imports].
  rewrite visitAll_app.
  rewrite (visitAll_text rootDir path
             {| fullText := text; children := nodes ++ more_nodes |}
             {| fullText := text; children := nodes |} baseUrl paths nodes)
    by reflexivity.
  apply (visitAll_extends rootDir path
           {| fullText := text; children := nodes ++ more_nodes |}
           baseUrl paths more_nodes).
Qed.

(** X11: in the file [mapFile] returns, the names of the export locations
    occur among the exports in the same order, so there are never more
    locations than exports. *)
Theorem mapFile_locations_name_exports (file : SourceFile) :
  let f := mapFile rootDir path file baseUrl paths in
  sublist (List.map loc_name (exportLocations f)) (exports f) /\
  (length (exportLocations f) <= length (exports f))%nat.
Proof.
  intros f. subst f. rewrite mapFile_visitAll. cbn.
  pose proof (visitAll_located rootDir path file baseUrl paths
                (children file) empty_acc located_empty) as Hloc.
  split; [exact Hloc|].
  apply sublist_length in Hloc. by rewrite length_map in Hloc.
Qed.

(** X12: an export declaration without a module specifier appends the
    names [extractExportStatement] gives, in order, to [exports], one
    location entry for each to [exportLocations], and leaves [imports]
    alone. *)
Theorem local_export_appends_names
    (file : SourceFile) (node : Node) (a : Acc) :
  isNodeDisabledViaComment node file = false ->
  kind node = ExportDeclaration ->
  moduleSpecifier node = None ->
  visitNode rootDir path file baseUrl paths node a
  = {| acc_imports := acc_imports a;
       acc_exports := acc_exports a ++ extractExportStatement node;
       acc_exportLocations :=
         acc_exportLocations a
         ++ List.map (location_of node) (extractExportStatement node) |}.
Proof.
  intros Hon Hkind Hms. rewrite visitNode_enabled by done.
  unfold dispatch. rewrite Hkind, Hms. apply addExports_closed.
Qed.

(** X13: the two default forms append exactly the name [default] to
    [exports]: an export assignment, and a statement of another kind with
    both the export and the default modifier, whose own name is not
    used. *)
Theorem default_export_is_default_only
    (file : SourceFile) (node : Node) (a : Acc) :
  isNodeDisabledViaComment node file = false ->
  kind node = ExportAssignment \/
  (kind node <> ImportDeclaration /\ kind node <> ExportDeclaration /\
   truthy_obool (hasModifier node ExportKeyword) = true /\
   truthy_obool (hasModifier node DefaultKeyword) = true) ->
  acc_exports (visitNode rootDir path file baseUrl paths node a)
  = acc_exports a ++ ["default"].
Proof.
  intros Hon Hform. rewrite visitNode_enabled by done.
  destruct (decide (kind node = ExportAssignment)) as [Hk|Hk].
  - unfold dispatch. by rewrite Hk.
  - destruct Hform as [?|(Hk1 & Hk3 & Hexp & Hdef)]; [done|].
    rewrite dispatch_other by done.
    unfold visitOther. rewrite Hexp, Hdef. simpl.
    destruct (mayContainDynamicImports node); [|done].
    by destruct (addDynamicImports_exports rootDir path baseUrl paths node a)
      as [-> _].
Qed.

(** X14: a statement of another kind with the export modifier and without
    the default modifier appends one name to [exports]: its own name when
    it has one, what [extractExport] gives otherwise; when that name is
    empty, nothing is appended, and the own name, even empty, is never
    replaced by what [extractExport] gives. *)
Theorem exported_statement_name
    (file : SourceFile) (node : Node) (a : Acc) :
  isNodeDisabledViaComment node file = false ->
  kind node <> ImportDeclaration ->
  kind node <> ExportAssignment ->
  kind node <> ExportDeclaration ->
  truthy_obool (hasModifier node ExportKeyword) = true ->
  truthy_obool (hasModifier node DefaultKeyword) = false ->
  acc_exports (visitNode rootDir path file baseUrl paths node a)
  = acc_exports a ++
    match name node with
    | Some text => if truthy_string text then [text] else []
    | None =>
        if truthy_string (extractExport path node)
        then [extractExport path node] else []
    end.
Proof.
  intros Hon Hk1 Hk2 Hk3 Hexp Hdef. rewrite visitNode_enabled by done.
  rewrite dispatch_other by done.
  unfold visitOther. rewrite Hexp, Hdef.
  set (a1 := if mayContainDynamicImports node then _ else a).
  assert (Ha1 : acc_exports a1 = acc_exports a).
  { subst a1. destruct (mayContainDynamicImports node); [|done].
    by destruct (addDynamicImports_exports rootDir path baseUrl paths node a). }
  destruct (name node) as [text|].
  - destruct (truthy_string text); simpl; rewrite Ha1;
      [done|by rewrite app_nil_r].
  - destruct (truthy_string (extractExport path node)); simpl; rewrite Ha1;
      [done|by rewrite app_nil_r].
Qed.

(** X15: a plain import, and a statement of another kind without the
    export modifier, never change [exports] or [exportLocations]; when such
    a statement of another kind cannot contain a dynamic import either, it
    changes nothing at all. *)
Theorem unexported_statement_adds_no_export
    (file : SourceFile) (node : Node) (a : Acc) :
  kind node = ImportDeclaration \/
  (kind node <> ExportAssignment /\ kind node <> ExportDeclaration /\
   truthy_obool (hasModifier node ExportKeyword) = false) ->
  (acc_exports (visitNode rootDir path file baseUrl paths node a)
   = acc_exports a /\
   acc_exportLocations (visitNode rootDir path file baseUrl paths node a)
   = acc_exportLocations a) /\
  (kind node <> ImportDeclaration ->
   mayContainDynamicImports node = false ->
   visitNode rootDir path file baseUrl paths node a = a).
Proof.
  intros Hform. unfold visitNode.
  destruct (isNodeDisabledViaComment node file); [done|].
  destruct (decide (kind node = ImportDeclaration)) as [Hk|Hk].
  - split; [|done]. unfold dispatch. rewrite Hk. apply addImport_exports.
  - destruct Hform as [?|(Hk2 & Hk3 & Hexp)]; [done|].
    rewrite dispatch_other by done.
    unfold visitOther. rewrite Hexp. split.
    + destruct (mayContainDynamicImports node); [|done].
      apply addDynamicImports_exports.
    + by intros _ ->.
Qed.

(** X16: a file without statements, or all of whose statements are
    disabled, gives no imports, no exports and no export locations. *)
Theorem all_disabled_file_is_empty (file : SourceFile) :
  (forall node, In node (children file) ->
                isNodeDisabledViaComment node file = true) ->
  let f := mapFile rootDir path file baseUrl paths in
  imports f = ∅ /\ exports f = [] /\ exportLocations f = [].
Proof.
  intros Hall f. subst f. rewrite mapFile_visitAll. cbn.
  assert (Hsame : visitAll rootDir path file baseUrl paths
                    (children file) empty_acc = empty_acc).
  { unfold visitAll. generalize empty_acc.
    induction (children file) as [|node nodes IH]; intros a; simpl; [done|].
    rewrite visitNode_disabled by (apply Hall; by left).
    apply IH. intros n Hn. apply Hall. by right. }
  by rewrite Hsame.
Qed.

(** X17: the path-alias matcher exists exactly when [baseUrl] is a
    non-empty string, the base directory resolved from it is non-empty, and
    [paths] is given; it is then made from that directory and [paths].  An
    empty [baseUrl] counts as none. *)
Theorem matcher_exists_iff (m : MatchPath) :
  tsconfigPathsMatcher rootDir baseUrl paths = Some m <->
  exists b ps,
    baseUrl = Some b /\ b <> "" /\ resolve rootDir b <> "" /\
    paths = Some ps /\ m = createMatchPath (resolve rootDir b) ps.
Proof.
  unfold tsconfigPathsMatcher, baseDir. split.
  - destruct baseUrl as [b|]; [|done].
    destruct (truthy_string b) eqn:Hb.
    + destruct paths as [ps|]; [|done].
      destruct (truthy_string (resolve rootDir b)) eqn:Hr; [|done].
      intros [= <-]. exists b, ps.
      by rewrite <- !truthy_string_ne.
    + destruct paths; [by rewrite Hb|done].
  - intros (b & ps & -> & Hb & Hr & -> & ->).
    apply truthy_string_ne in Hb, Hr. by rewrite Hb, Hr.
Qed.

End MapperExtras.

Lemma mapFile_later_statements_extend_witness :
  exists more,
    exports (mapFile (H:=Demo.demoHost) "/proj" "/proj/a.ts"
               (MoreDemo.bare_file [Demo.named_reexport; Demo.exported_function])
               None None)
    = exports (mapFile (H:=Demo.demoHost) "/proj" "/proj/a.ts"
                 (MoreDemo.bare_file [Demo.named_reexport]) None None)
      ++ more.
Proof.
  apply (proj1 (mapFile_later_statements_extend (H:=Demo.demoHost)
                  "/proj" "/proj/a.ts" None None ""
                  [Demo.named_reexport] [Demo.exported_function])).
Defined.

Lemma mapFile_imports_only_grow_witness :
  exists more,
    imports (mapFile (H:=Demo.demoHost) "/proj" "/proj/a.ts"
               (MoreDemo.bare_file [Demo.named_reexport; Demo.wildcard_reexport])
               None None) !! "m"
    = Some (["x"] ++ more).
Proof.
  apply (mapFile_imports_only_grow (H:=Demo.demoHost)
           "/proj" "/proj/a.ts" None None ""
           [Demo.named_reexport] [Demo.wildcard_reexport] "m" ["x"]).
  reflexivity.
Defined.

Lemma local_export_appends_names_witness :
  acc_exports
    (visitNode (H:=Demo.demoHost) "/proj" "/proj/a.ts"
               (MoreDemo.bare_file [MoreDemo.local_export]) None None
               MoreDemo.local_export empty_acc)
  = ["a"; "c"].
Proof.
  rewrite (local_export_appends_names (H:=Demo.demoHost) "/proj" "/proj/a.ts"
             None None (MoreDemo.bare_file [MoreDemo.local_export])
             MoreDemo.local_export empty_acc eq_refl eq_refl eq_refl).
  reflexivity.
Defined.

Lemma default_export_is_default_only_witness :
  acc_exports
    (visitNode (H:=Demo.demoHost) "/proj" "/proj/a.ts"
               (MoreDemo.bare_file [MoreDemo.default_function]) None None
               MoreDemo.default_function empty_acc)
  = ["default"].
Proof.
  apply (default_export_is_default_only (H:=Demo.demoHost) "/proj" "/proj/a.ts"
           None None (MoreDemo.bare_file [MoreDemo.default_function])
           MoreDemo.default_function empty_acc eq_refl).
  right. repeat split; discriminate.
Defined.

Lemma exported_statement_name_witness :
  acc_exports
    (visitNode (H:=Demo.demoHost) "/proj" "/proj/a.ts"
               (MoreDemo.bare_file [Demo.exported_function]) None None
               Demo.exported_function empty_acc)
  = ["f"].
Proof.
  apply (exported_statement_name (H:=Demo.demoHost) "/proj" "/proj/a.ts"
           None None (MoreDemo.bare_file [Demo.exported_function])
           Demo.exported_function empty_acc eq_refl);
    (discriminate || reflexivity).
Defined.

Lemma unexported_statement_adds_no_export_witness :
  visitNode (H:=Demo.demoHost) "/proj" "/proj/a.ts"
            (MoreDemo.bare_file [MoreDemo.plain_statement]) None None
            MoreDemo.plain_statement empty_acc
  = empty_acc.
Proof.
  apply (proj2 (unexported_statement_adds_no_export (H:=Demo.demoHost)
                  "/proj" "/proj/a.ts" None None
                  (MoreDemo.bare_file [MoreDemo.plain_statement])
                  MoreDemo.plain_statement empty_acc
                  ltac:(right; repeat split; discriminate)));
    (discriminate || reflexivity).
Defined.

Lemma all_disabled_file_is_empty_witness :
  exports (mapFile (H:=Demo.demoHost) "/proj" "/proj/a.ts"
             Demo.suppressed_file None None) = [].
Proof.
  apply (all_disabled_file_is_empty (H:=Demo.demoHost) "/proj" "/proj/a.ts"
           None None Demo.suppressed_file).
  intros node [<-|[]]. reflexivity.
Defined.

Lemma matcher_exists_iff_witness :
  tsconfigPathsMatcher (H:=Demo.demoHost) "/proj" (Some "src") (Some ∅)
  = Some (createMatchPath (Collaborators:=Demo.demoHost) "/proj/src" ∅) /\
  tsconfigPathsMatcher (H:=Demo.demoHost) "/proj" (Some "") (Some ∅) = None.
Proof.
  split; [|reflexivity].
  apply (proj2 (matcher_exists_iff (H:=Demo.demoHost) "/proj" (Some "src")
                  (Some ∅) _)).
  exists "src", ∅. repeat split; discriminate.
Defined.

(** ** [parseFile], [parsePaths] and the entry point *)

(** X18: what [parsePaths] throws is the failure of the first surviving
    file that fails, in the order of the configuration: when the surviving
    files before it can be read and parsed, the files after it make no
    difference. *)
Theorem parsePaths_first_failure `{Collaborators}
    (rootDir : string) (tsConfig : TsConfig)
    (extraOptions : option ExtraCommandLineOptions)
    (before after : list string) (p : string) (e : Exn) :
  filteredPaths (files tsConfig) extraOptions = before ++ p :: after ->
  (forall p', In p' before ->
     exists f, parseFile rootDir (resolve rootDir p')
                         (baseUrl tsConfig) (Types.paths tsConfig) = Returned f) ->
  parseFile rootDir (resolve rootDir p)
            (baseUrl tsConfig) (Types.paths tsConfig) = Thrown e ->
  parsePaths rootDir tsConfig extraOptions = Thrown e.
Proof.
  intros Hsplit Hbefore Hp. unfold parsePaths. rewrite Hsplit.
  by apply (map_throwing_first_thrown
              (fun path => parseFile rootDir (resolve rootDir path)
                                     (baseUrl tsConfig) (Types.paths tsConfig))).
Qed.

Lemma parsePaths_first_failure_witness :
  parsePaths (H:=Demo.demoHost) "/proj" Demo.failing_config Demo.default_options
  = Thrown (FileReadError "/proj/missing.ts").
Proof.
  apply (parsePaths_first_failure (H:=Demo.demoHost) "/proj"
           Demo.failing_config Demo.default_options
           ["a.ts"] ["b.ts"] "missing.ts").
  - reflexivity.
  - intros p' [<-|[]]. eexists. reflexivity.
  - reflexivity.
Defined.

(** X19: every file the entry point returns is the file of one surviving
    path, position by position: its [fullPath] is the path resolved
    against [rootDir] and its [path] is the normalised name of that full
    path. *)
Theorem parseFiles_file_records `{Collaborators}
    (rootDir : string) (tsConfig : TsConfig)
    (extraOptions : option ExtraCommandLineOptions) (fs : list File) :
  parseFiles rootDir tsConfig extraOptions = Returned fs ->
  Forall2 (fun p f =>
             fullPath f = resolve rootDir p /\
             Types.path f = extractFilename rootDir (resolve rootDir p))
          (filteredPaths (files tsConfig) extraOptions) fs.
Proof.
  unfold parseFiles. intros Hfs. apply parsePaths_returned in Hfs.
  induction Hfs as [|p f ps fs' Hp _ IH]; constructor; [|exact IH].
  apply parseFile_returned in Hp as (text & sf & _ & _ & ->). done.
Qed.

Lemma parseFiles_file_records_witness :
  exists fs,
    parseFiles (H:=Demo.demoHost) "/proj" Demo.demo_config
               Demo.exclude_declarations = Returned fs /\
    Forall2 (fun p f =>
               fullPath f = "/proj/" +:+ p /\
               Types.path f
               = extractFilename (H:=Demo.demoHost) "/proj" ("/proj/" +:+ p))
            ["a.ts"; "b.ts"; "a.ts"] fs.
Proof.
  eexists. split; [reflexivity|].
  apply (parseFiles_file_records (H:=Demo.demoHost) "/proj"
           Demo.demo_config Demo.exclude_declarations _ eq_refl).
Defined.

(** X20: when the filter is active and every configured path contains
    [.d.], the entry point returns the empty sequence and reads no file:
    whether the files could be read does not matter. *)
Theorem parseFiles_all_dropped `{Collaborators}
    (rootDir : string) (tsConfig : TsConfig)
    (extraOptions : option ExtraCommandLineOptions) :
  truthy_obool (includeDeclarationFiles extraOptions) = false ->
  (forall p, In p (files tsConfig) -> contains p ".d.") ->
  parseFiles rootDir tsConfig extraOptions = Returned [].
Proof.
  intros Hactive Hall. unfold parseFiles, parsePaths.
  assert (filteredPaths (files tsConfig) extraOptions = []) as ->; [|done].
  unfold filteredPaths.
  induction (files tsConfig) as [|p ps IH]; [done|]. simpl.
  unfold keepPath at 1. rewrite Hactive. simpl.
  assert ((indexOf p ".d." =? -1) = false) as ->.
  { apply indexOf_found. apply Hall. by left. }
  apply IH. intros q Hq. apply Hall. by right.
Qed.

Lemma parseFiles_all_dropped_witness :
  parseFiles (H:=Demo.demoHost) "/proj" MoreDemo.declarations_only None
  = Returned [].
Proof.
  apply (parseFiles_all_dropped (H:=Demo.demoHost) "/proj"
           MoreDemo.declarations_only None eq_refl).
  intros p [<-|[<-|[]]].
  - by exists "types", "ts".
  - by exists "lib", "x/foo.ts".
Defined.

(* ===================================================================== *)
(** * The re-export and dispatch claims, on the file [mapFile] returns *)
(* ===================================================================== *)

(** ** One more statement at the end of a file *)

Module LoopFacts.
Import JsString Ts Types Host Comment Mapper Branches Shapes FileAcc.
Import MapperFacts AccFacts.

Section Loop.
Context `{Collaborators}.
Variables (rootDir path : string).
Variables (baseUrl : option string) (paths : option (gmap string (list string))).

Local Abbreviation fileOf text nodes :=
  (mapFile rootDir path (source text nodes) baseUrl paths).

Lemma acc_of_mapFile (file : SourceFile) :
  acc_of (mapFile rootDir path file baseUrl paths)
  = visitAll rootDir path file baseUrl paths (children file) empty_acc.
Proof.
  rewrite mapFile_visitAll. unfold acc_of. cbn.
  by destruct (visitAll rootDir path file baseUrl paths (children file)
                        empty_acc).
Qed.

(** The file with one more statement is the callback on that statement,
    started from the file without it. *)
Lemma mapFile_step (text : string) (pre : list Node) (node : Node) :
  acc_of (fileOf text (pre ++ [node]))
  = visitNode rootDir path (source text (pre ++ [node])) baseUrl paths node
              (acc_of (fileOf text pre)).
Proof.
  rewrite !acc_of_mapFile. cbn [children source].
  rewrite visitAll_app.
  by rewrite (visitAll_text rootDir path (source text (pre ++ [node]))
                (source text pre) baseUrl paths pre) by reflexivity.
Qed.

(** The statements after [node] only add to the file up to [node]. *)
Lemma mapFile_rest (text : string) (pre post : list Node) (node : Node) :
  extends (acc_of (fileOf text (pre ++ [node])))
          (acc_of (fileOf text (pre ++ node :: post))).
Proof.
  rewrite !acc_of_mapFile. cbn [children source].
  replace (pre ++ node :: post) with ((pre ++ [node]) ++ post)
    by (by rewrite <- app_assoc).
  rewrite (visitAll_app rootDir path _ baseUrl paths (pre ++ [node]) post).
  rewrite (visitAll_text rootDir path (source text ((pre ++ [node]) ++ post))
             (source text (pre ++ [node])) baseUrl paths (pre ++ [node]))
    by reflexivity.
  apply visitAll_extends.
Qed.

(** The loop of [mapFile] runs, statement by statement, the branches that
    fire. *)
Lemma mapFile_runs_fired (file : SourceFile) :
  acc_of (mapFile rootDir path file baseUrl paths)
  = fold_left
      (fun a node =>
         fold_left (fun a' b => run rootDir path file baseUrl paths b node a')
                   (if isNodeDisabledViaComment node file then []
                    else fired node) a)
      (children file) empty_acc.
Proof.
  rewrite acc_of_mapFile. unfold visitAll. generalize empty_acc.
  induction (children file) as [|node nodes IH]; intros a; simpl; [done|].
  rewrite IH. f_equal. unfold visitNode.
  destruct (isNodeDisabledViaComment node file); [done|].
  apply dispatch_fired.
Qed.

End Loop.

End LoopFacts.

Import FileAcc LoopFacts.

Section MapFileClaims.
Context `{Collaborators}.
Variables (rootDir path : string).
Variables (baseUrl : option string) (paths : option (gmap string (list string))).

Local Abbreviation fileOf text nodes :=
  (mapFile rootDir path (source text nodes) baseUrl paths).
Local Abbreviation resolved :=
  (moduleKey rootDir path (tsconfigPathsMatcher rootDir baseUrl paths)
             (baseDir rootDir baseUrl) baseUrl).

(** C4: let a wildcard re-export, not disabled, whose specifier resolves to
    the non-empty module key [k], follow the statements [pre] of a file.
    The file [mapFile] returns up to that statement has the exports of the
    file for [pre] followed by exactly one entry, the text [*:] followed by
    [k], and its imports are those of the file for [pre] with the wildcard
    registered under [k].  In the file for the whole text that entry
    follows the exports of [pre], before whatever later statements
    append. *)
Theorem wildcard_reexport_one_entry
    (text : string) (pre post : list Node) (node : Node)
    (ms : Expression) (k : string) :
  isNodeDisabledViaComment node (source text (pre ++ node :: post)) = false ->
  kind node = ExportDeclaration ->
  moduleSpecifier node = Some ms ->
  what (extractExportFromImport node ms) = Star ->
  resolved (specifier (extractExportFromImport node ms)) = Some k ->
  k <> "" ->
  exports (fileOf text (pre ++ [node]))
  = exports (fileOf text pre) ++ ["*:" +:+ k] /\
  imports (fileOf text (pre ++ [node]))
  = <[k := default [] (imports (fileOf text pre) !! k) ++ star]>
      (imports (fileOf text pre)) /\
  exists more,
    exports (fileOf text (pre ++ node :: post))
    = exports (fileOf text pre) ++ ["*:" +:+ k] ++ more.
Proof.
  intros Hon Hkind Hms Hstar Hkey Hk.
  destruct (visitNode_wildcard_reexport rootDir path
              (source text (pre ++ [node])) baseUrl paths node ms k
              (acc_of (fileOf text pre)) Hon Hkind Hms Hstar Hkey Hk)
    as [He Hi].
  rewrite <- mapFile_step in He, Hi.
  change (exports (fileOf text (pre ++ [node]))
          = exports (fileOf text pre) ++ ["*:" +:+ k]) in He.
  split; [exact He|]. split; [exact Hi|].
  destruct (mapFile_rest rootDir path baseUrl paths text pre post node)
    as [[more Hmore] _].
  exists more.
  change (exports (fileOf text (pre ++ node :: post))
          = exports (fileOf text (pre ++ [node])) ++ more) in Hmore.
  by rewrite Hmore, He, <- app_assoc.
Qed.

(** C5: let a named re-export, not disabled, of the names [ns], whose
    specifier resolves to the non-empty module key [k], follow the
    statements [pre] of a file.  In the file [mapFile] returns up to that
    statement the entry of [imports] under [k] holds the names it had for
    [pre] followed by [ns], and the exports are those for [pre] followed
    by [ns].  The file for the whole text keeps both: the entry under [k]
    and the exports continue with what later statements add. *)
Theorem named_reexport_registers
    (text : string) (pre post : list Node) (node : Node)
    (ms : Expression) (k : string) (ns : list string) :
  isNodeDisabledViaComment node (source text (pre ++ node :: post)) = false ->
  kind node = ExportDeclaration ->
  moduleSpecifier node = Some ms ->
  what (extractExportFromImport node ms) = Names ns ->
  resolved (specifier (extractExportFromImport node ms)) = Some k ->
  k <> "" ->
  imports (fileOf text (pre ++ [node])) !! k
  = Some (default [] (imports (fileOf text pre) !! k) ++ ns) /\
  exports (fileOf text (pre ++ [node])) = exports (fileOf text pre) ++ ns /\
  exists more_names more,
    imports (fileOf text (pre ++ node :: post)) !! k
    = Some (default [] (imports (fileOf text pre) !! k) ++ ns ++ more_names) /\
    exports (fileOf text (pre ++ node :: post))
    = exports (fileOf text pre) ++ ns ++ more.
Proof.
  intros Hon Hkind Hms Hnames Hkey Hk.
  destruct (visitNode_named_reexport rootDir path
              (source text (pre ++ [node])) baseUrl paths node ms k ns
              (acc_of (fileOf text pre)) Hon Hkind Hms Hnames Hkey Hk)
    as [Hi He].
  rewrite <- mapFile_step in He, Hi.
  change (exports (fileOf text (pre ++ [node]))
          = exports (fileOf text pre) ++ ns) in He.
  change (imports (fileOf text (pre ++ [node])) !! k
          = Some (default [] (imports (fileOf text pre) !! k) ++ ns)) in Hi.
  split; [exact Hi|]. split; [exact He|].
  destruct (mapFile_rest rootDir path baseUrl paths text pre post node)
    as ([more Hmore] & _ & Himports).
  destruct (Himports k _ Hi) as [more_names Hnames'].
  cbn [acc_of acc_imports acc_exports] in Hnames', Hmore.
  exists more_names, more. split.
  - by rewrite Hnames', <- app_assoc.
  - by rewrite Hmore, He, <- app_assoc.
Qed.

(** C7: the accumulators of the file [mapFile] returns are those of running,
    statement by statement and in the order of the source, the branches
    that fire, none for a disabled statement.  When one of the four kind
    branches (plain import, export assignment, export declaration without
    or with a module specifier) fires for a statement, it is the only
    branch that fires.  The scan for dynamic imports and the
    export-modifier branch fire only for statements of none of those
    kinds, and they fire together for a statement that may contain a
    dynamic import and carries the export modifier: with such a statement
    after the statements [pre], the file has the dynamic import registered
    in [imports] and the name of the statement appended to [exports]. *)
Theorem dispatch_branches
    (file : SourceFile) (text : string) (pre : list Node) (node : Node) :
  acc_of (mapFile rootDir path file baseUrl paths)
  = fold_left
      (fun a n =>
         fold_left (fun a' b => run rootDir path file baseUrl paths b n a')
                   (if isNodeDisabledViaComment n file then [] else fired n) a)
      (children file) empty_acc
  /\
  (forall b, In b (fired node) -> is_kind_branch b = true ->
     fired node = [b])
  /\
  (forall b, In b (fired node) -> is_kind_branch b = false ->
     kind node <> ImportDeclaration /\
     kind node <> ExportAssignment /\
     kind node <> ExportDeclaration /\
     forall b', In b' (fired node) -> is_kind_branch b' = false)
  /\
  (kind node <> ImportDeclaration ->
   kind node <> ExportAssignment ->
   kind node <> ExportDeclaration ->
   mayContainDynamicImports node = true ->
   truthy_obool (hasModifier node ExportKeyword) = true ->
   fired node = [DynamicImportScan; ExportModifier] /\
   forall x fw k,
     truthy_obool (hasModifier node DefaultKeyword) = false ->
     name node = Some x -> x <> "" ->
     dynamicImportsOf node = [fw] ->
     resolved (specifier fw) = Some k ->
     isNodeDisabledViaComment node (source text (pre ++ [node])) = false ->
     exports (fileOf text (pre ++ [node]))
     = exports (fileOf text pre) ++ [x] /\
     imports (fileOf text (pre ++ [node])) !! k
     = Some (default [] (imports (fileOf text pre) !! k)
             ++ what_names (what fw))).
Proof.
  split; [apply mapFile_runs_fired|].
  destruct (visitNode_branches rootDir path (source text (pre ++ [node]))
              baseUrl paths node (acc_of (fileOf text pre)))
    as (_ & Honly & Hother & Hboth).
  split; [exact Honly|]. split; [exact Hother|].
  intros Hk1 Hk2 Hk3 Hdyn Hexp.
  destruct (Hboth Hk1 Hk2 Hk3 Hdyn Hexp) as [Hfired Heffect].
  split; [exact Hfired|].
  intros x fw k Hdef Hname Hx Hfw Hkey Hon.
  destruct (Heffect x fw k Hdef Hname Hx Hfw Hkey Hon) as [He Hi].
  rewrite <- mapFile_step in He, Hi.
  split; [exact He|exact Hi].
Qed.

(** C10, as the code has it: let a named re-export, not disabled, of the
    names [ns] follow the statements [pre] of a file.  When its specifier
    resolves to a non-empty module key, the file [mapFile] returns up to
    that statement has the exports for [pre] followed by [ns] and exactly
    the export locations for [pre], so the exports without a location
    entry grow by the number of names; when the specifier does not
    resolve, or resolves to the empty key, the file has the exports and the
    export locations for [pre] and no more.  Any other statement after
    [pre] leaves the number of exports without a location entry as it was:
    what it appends to [exports] has its entry in [exportLocations]. *)
Theorem named_reexport_adds_no_locations
    (text : string) (pre : list Node) (node : Node) :
  (forall ms ns,
     isNodeDisabledViaComment node (source text (pre ++ [node])) = false ->
     kind node = ExportDeclaration ->
     moduleSpecifier node = Some ms ->
     what (extractExportFromImport node ms) = Names ns ->
     (forall k,
        resolved (specifier (extractExportFromImport node ms)) = Some k ->
        k <> "" ->
        exports (fileOf text (pre ++ [node]))
        = exports (fileOf text pre) ++ ns /\
        exportLocations (fileOf text (pre ++ [node]))
        = exportLocations (fileOf text pre) /\
        unlocated (acc_of (fileOf text (pre ++ [node])))
        = unlocated (acc_of (fileOf text pre)) + Z.of_nat (length ns))
     /\
     (resolved (specifier (extractExportFromImport node ms)) = None \/
      resolved (specifier (extractExportFromImport node ms)) = Some "" ->
      exports (fileOf text (pre ++ [node])) = exports (fileOf text pre) /\
      exportLocations (fileOf text (pre ++ [node]))
      = exportLocations (fileOf text pre)))
  /\
  ((kind node <> ExportDeclaration \/
    moduleSpecifier node = None \/
    exists ms, moduleSpecifier node = Some ms /\
               what (extractExportFromImport node ms) = Star) ->
   unlocated (acc_of (fileOf text (pre ++ [node])))
   = unlocated (acc_of (fileOf text pre))).
Proof.
  destruct (visitNode_named_reexport_locations rootDir path
              (source text (pre ++ [node])) baseUrl paths node
              (acc_of (fileOf text pre)))
    as [Hnamed Hother].
  rewrite <- mapFile_step in Hnamed, Hother.
  split; [|exact Hother].
  intros ms ns Hon Hkind Hms Hnames.
  destruct (Hnamed ms ns Hon Hkind Hms Hnames) as [Hkey Hnone].
  split; [intros k Hk Hne; exact (Hkey k Hk Hne)|exact Hnone].
Qed.

End MapFileClaims.

(** ** The claims on the small project *)

Lemma wildcard_reexport_one_entry_witness :
  exports (mapFile (H:=Demo.demoHost) "/proj" "/proj/a.ts"
             (source "" [Demo.exported_function; Demo.wildcard_reexport])
             None None)
  = ["f"; "*:m"].
Proof.
  apply (proj1 (wildcard_reexport_one_entry (H:=Demo.demoHost)
                  "/proj" "/proj/a.ts" None None ""
                  [Demo.exported_function] [Demo.named_reexport]
                  Demo.wildcard_reexport {| expr_text := "./m" |} "m"
                  eq_refl eq_refl eq_refl eq_refl eq_refl
                  ltac:(discriminate))).
Defined.

Lemma named_reexport_registers_witness :
  imports (mapFile (H:=Demo.demoHost) "/proj" "/proj/a.ts"
             (source "" [Demo.wildcard_reexport; Demo.named_reexport])
             None None) !! "m"
  = Some ["*"; "x"] /\
  exports (mapFile (H:=Demo.demoHost) "/proj" "/proj/a.ts"
             (source "" [Demo.wildcard_reexport; Demo.named_reexport])
             None None)
  = ["*:m"; "x"].
Proof.
  destruct (named_reexport_registers (H:=Demo.demoHost)
              "/proj" "/proj/a.ts" None None ""
              [Demo.wildcard_reexport] [] Demo.named_reexport
              {| expr_text := "./m" |} "m" ["x"]
              eq_refl eq_refl eq_refl eq_refl eq_refl ltac:(discriminate))
    as (Hi & He & _).
  split; [exact Hi|exact He].
Defined.

Lemma dispatch_branches_witness :
  fired (H:=Demo.demoHost) Demo.exported_loader
  = [DynamicImportScan; ExportModifier] /\
  exports (mapFile (H:=Demo.demoHost) "/proj" "/proj/a.ts"
             (source "" [Demo.named_reexport; Demo.exported_loader])
             None None)
  = ["x"; "load"] /\
  imports (mapFile (H:=Demo.demoHost) "/proj" "/proj/a.ts"
             (source "" [Demo.named_reexport; Demo.exported_loader])
             None None) !! "lazy"
  = Some ["*"].
Proof.
  destruct (dispatch_branches (H:=Demo.demoHost) "/proj" "/proj/a.ts"
              None None
              (source "" [Demo.named_reexport; Demo.exported_loader])
              "" [Demo.named_reexport] Demo.exported_loader)
    as (_ & _ & _ & Hboth).
  destruct Hboth as [Hfired Heffect]; try (reflexivity || discriminate).
  split; [exact Hfired|].
  apply (Heffect "load" {| specifier := "./lazy"; what := Star |} "lazy");
    try reflexivity.
  discriminate.
Defined.

Lemma named_reexport_adds_no_locations_witness :
  exports (mapFile (H:=Demo.demoHost) "/proj" "/proj/a.ts"
             (source "" [Demo.exported_function; Demo.named_reexport])
             None None)
  = ["f"; "x"] /\
  List.map loc_name
    (exportLocations
       (mapFile (H:=Demo.demoHost) "/proj" "/proj/a.ts"
          (source "" [Demo.exported_function; Demo.named_reexport])
          None None))
  = ["f"].
Proof.
  destruct (proj1 (named_reexport_adds_no_locations (H:=Demo.demoHost)
                     "/proj" "/proj/a.ts" None None ""
                     [Demo.exported_function] Demo.named_reexport)
                  {| expr_text := "./m" |} ["x"]
                  eq_refl eq_refl eq_refl eq_refl)
    as [Hresolved _].
  destruct (Hresolved "m" eq_refl ltac:(discriminate)) as (He & Hl & _).
  split; [exact He|exact (f_equal (List.map loc_name) Hl)].
Defined.

(** C10, as the claim has it, fails: after an exported function, the named
    re-export [export { x } from 'lodash'], whose specifier does not
    resolve to a module key, and the named re-export [export {} from './m'],
    which names nothing, leave the file [mapFile] returns with the one
    export and the one export location of the function: for these
    statements [exports] has not grown more than [exportLocations]. *)
Lemma unresolved_named_reexport_appends_nothing :
  (kind Demo.package_reexport = ExportDeclaration /\
   what (extractExportFromImport (Collaborators:=Demo.demoHost)
           Demo.package_reexport {| expr_text := "lodash" |}) = Names ["x"] /\
   exports (mapFile (H:=Demo.demoHost) "/proj" "/proj/a.ts"
              (source "" [Demo.exported_function; Demo.package_reexport])
              None None) = ["f"] /\
   List.map loc_name
     (exportLocations
        (mapFile (H:=Demo.demoHost) "/proj" "/proj/a.ts"
           (source "" [Demo.exported_function; Demo.package_reexport])
           None None)) = ["f"]) /\
  (kind Demo.empty_reexport = ExportDeclaration /\
   what (extractExportFromImport (Collaborators:=Demo.demoHost)
           Demo.empty_reexport {| expr_text := "./m" |}) = Names [] /\
   exports (mapFile (H:=Demo.demoHost) "/proj" "/proj/a.ts"
              (source "" [Demo.exported_function; Demo.empty_reexport])
              None None) = ["f"] /\
   List.map loc_name
     (exportLocations
        (mapFile (H:=Demo.demoHost) "/proj" "/proj/a.ts"
           (source "" [Demo.exported_function; Demo.empty_reexport])
           None None)) = ["f"]).
Proof. repeat split. Qed.
